(** * avruartlib: interrupt driven UART driver with two ring buffers

    A shallow embedding of [uart.c] / [uart.h] and the properties of its
    receive and transmit ring buffers.

    Conventions of the embedding.
    - An [unsigned char] is a [Z] in [0, 256); a store into one is written
      with its wrap-around ([_ mod 256]).  An [unsigned int] is 16 bits wide
      on the AVR ([_ mod 65536]).
    - The two buffers are lists, read and written by index.
    - The module-level variables and the peripheral registers the driver
      touches form one record, threaded through every function.
    - The values an interrupt handler reads from the (volatile) status and
      data registers are arguments of the handler.
    - The busy-wait of [UART_CharPutNonBlocking] re-reads the volatile
      [UART_TxTail] on every iteration; the handlers that run between two
      reads are given by a schedule. *)

From stdpp Require Import base list numbers.
From Stdlib Require Import ZArith Lia.

Local Open Scope Z_scope.

(** ** Constants of [uart.h] *)

Definition UART_FRAME_ERROR : Z := 0x0800.
Definition UART_OVERRUN_ERROR : Z := 0x0400.
Definition UART_BUFFER_OVERFLOW : Z := 0x0200.
Definition UART_NO_DATA : Z := 0x0100.

(** The buffer sizes are compile-time macros of [uart.h] (32 unless the
    build overrides them); the bit positions come from the device header
    that [config.h] pulls in. *)
Class config : Type := Config {
  UART_RX_BUFFER_SIZE : Z;
  UART_TX_BUFFER_SIZE : Z;
  FE : Z;
  DOR : Z;
  U2X : Z;
  RXCIE : Z;
  RXEN : Z;
  TXEN : Z;
  UDRIE : Z;
  URSEL : Z;
  UCSZ0 : Z
}.

(** ** State *)

(** Peripheral registers, as last written by the driver.  [UDR] is the
    sequence of bytes written to the transmit data register, oldest first;
    [SREG_I] is the global interrupt flag set by [sei()]. *)
Record regs : Type := Regs {
  UCSRA : Z;
  UCSRB : Z;
  UCSRC : Z;
  UBRRH : Z;
  UBRRL : Z;
  UDR : list Z;
  SREG_I : bool
}.

Record state : Type := State {
  UART_TxBuf : list Z;
  UART_RxBuf : list Z;
  UART_TxHead : Z;
  UART_TxTail : Z;
  UART_RxHead : Z;
  UART_RxTail : Z;
  UART_LastRxError : Z;
  hw : regs
}.

Definition set_UCSRA (v : Z) (r : regs) : regs :=
  Regs v (UCSRB r) (UCSRC r) (UBRRH r) (UBRRL r) (UDR r) (SREG_I r).
Definition set_UCSRB (v : Z) (r : regs) : regs :=
  Regs (UCSRA r) v (UCSRC r) (UBRRH r) (UBRRL r) (UDR r) (SREG_I r).
Definition set_UCSRC (v : Z) (r : regs) : regs :=
  Regs (UCSRA r) (UCSRB r) v (UBRRH r) (UBRRL r) (UDR r) (SREG_I r).
Definition set_UBRRH (v : Z) (r : regs) : regs :=
  Regs (UCSRA r) (UCSRB r) (UCSRC r) v (UBRRL r) (UDR r) (SREG_I r).
Definition set_UBRRL (v : Z) (r : regs) : regs :=
  Regs (UCSRA r) (UCSRB r) (UCSRC r) (UBRRH r) v (UDR r) (SREG_I r).
Definition write_UDR (v : Z) (r : regs) : regs :=
  Regs (UCSRA r) (UCSRB r) (UCSRC r) (UBRRH r) (UBRRL r) (UDR r ++ [v]) (SREG_I r).
Definition sei (r : regs) : regs :=
  Regs (UCSRA r) (UCSRB r) (UCSRC r) (UBRRH r) (UBRRL r) (UDR r) true.

Definition set_TxBuf (v : list Z) (s : state) : state :=
  State v (UART_RxBuf s) (UART_TxHead s) (UART_TxTail s) (UART_RxHead s)
        (UART_RxTail s) (UART_LastRxError s) (hw s).
Definition set_RxBuf (v : list Z) (s : state) : state :=
  State (UART_TxBuf s) v (UART_TxHead s) (UART_TxTail s) (UART_RxHead s)
        (UART_RxTail s) (UART_LastRxError s) (hw s).
Definition set_TxHead (v : Z) (s : state) : state :=
  State (UART_TxBuf s) (UART_RxBuf s) v (UART_TxTail s) (UART_RxHead s)
        (UART_RxTail s) (UART_LastRxError s) (hw s).
Definition set_TxTail (v : Z) (s : state) : state :=
  State (UART_TxBuf s) (UART_RxBuf s) (UART_TxHead s) v (UART_RxHead s)
        (UART_RxTail s) (UART_LastRxError s) (hw s).
Definition set_RxHead (v : Z) (s : state) : state :=
  State (UART_TxBuf s) (UART_RxBuf s) (UART_TxHead s) (UART_TxTail s) v
        (UART_RxTail s) (UART_LastRxError s) (hw s).
Definition set_RxTail (v : Z) (s : state) : state :=
  State (UART_TxBuf s) (UART_RxBuf s) (UART_TxHead s) (UART_TxTail s)
        (UART_RxHead s) v (UART_LastRxError s) (hw s).
Definition set_LastRxError (v : Z) (s : state) : state :=
  State (UART_TxBuf s) (UART_RxBuf s) (UART_TxHead s) (UART_TxTail s)
        (UART_RxHead s) (UART_RxTail s) v (hw s).
Definition set_hw (f : regs → regs) (s : state) : state :=
  State (UART_TxBuf s) (UART_RxBuf s) (UART_TxHead s) (UART_TxTail s)
        (UART_RxHead s) (UART_RxTail s) (UART_LastRxError s) (f (hw s)).

(** Array read and write.  Every index the driver uses has been masked
    with [SIZE - 1], so it lies inside the array; the default of [rd] and
    the no-op of an out-of-range [wr] are never exercised on an array of
    the declared length. *)
Definition rd (a : list Z) (i : Z) : Z := default 0 (a !! Z.to_nat i).
Definition wr (a : list Z) (i : Z) (v : Z) : list Z := <[Z.to_nat i := v]> a.

(** Store into an [unsigned char] / [unsigned int]. *)
Definition u8 (x : Z) : Z := x mod 256.
Definition u16 (x : Z) : Z := x mod 65536.

(** An interrupt request: receive complete, with the values the handler
    will read from the status and data registers, or data register
    empty. *)
Inductive irq : Type :=
| RXC (usr data : Z)
| UDRE.

(** What a call from the main context does under a finite schedule of
    interrupts. *)
Inductive outcome (A : Type) : Type :=
| Returns (a : A)
| Spins
| OutOfBounds.
Arguments Returns {A} a.
Arguments Spins {A}.
Arguments OutOfBounds {A}.

Section Driver.
Context {cfg : config}.

Definition UART_RX_BUFFER_MASK : Z := UART_RX_BUFFER_SIZE - 1.
Definition UART_TX_BUFFER_MASK : Z := UART_TX_BUFFER_SIZE - 1.
Definition UART_UDRIE : Z := UDRIE.

(** [ISR(UART_RECEIVE_INTERRUPT)]; [usr] and [data] are the values read
    from [UART_STATUS] and [UART_DATA]. *)
Definition ISR_UART_RECEIVE_INTERRUPT (usr data : Z) (s : state) : state :=
  let lastRxError := u8 (Z.land usr (Z.lor (Z.shiftl 1 FE) (Z.shiftl 1 DOR))) in
  let tmphead := u8 (Z.land (UART_RxHead s + 1) UART_RX_BUFFER_MASK) in
  if tmphead =? UART_RxTail s then
    let lastRxError := u8 (Z.shiftr UART_BUFFER_OVERFLOW 8) in
    set_LastRxError lastRxError s
  else
    let s := set_RxHead tmphead s in
    let s := set_RxBuf (wr (UART_RxBuf s) tmphead data) s in
    set_LastRxError lastRxError s.

(** [ISR(UART_TRANSMIT_INTERRUPT)]. *)
Definition ISR_UART_TRANSMIT_INTERRUPT (s : state) : state :=
  if negb (UART_TxHead s =? UART_TxTail s) then
    let tmptail := u8 (Z.land (UART_TxTail s + 1) UART_TX_BUFFER_MASK) in
    let s := set_TxTail tmptail s in
    set_hw (write_UDR (rd (UART_TxBuf s) tmptail)) s
  else
    set_hw (λ r, set_UCSRB (u8 (Z.land (UCSRB r) (Z.lnot (Z.shiftl 1 UART_UDRIE)))) r) s.

(** [UART_Init]; [baudrate] is an [unsigned int]. *)
Definition UART_Init (baudrate : Z) (s : state) : state :=
  let s := set_TxHead 0 s in
  let s := set_TxTail 0 s in
  let s := set_RxHead 0 s in
  let s := set_RxTail 0 s in
  let '(s, baudrate) :=
    if negb (Z.land baudrate 0x8000 =? 0) then
      (set_hw (set_UCSRA (u8 (Z.shiftl 1 U2X))) s,
       u16 (Z.land baudrate (Z.lnot 0x8000)))
    else (s, baudrate) in
  let s := set_hw (set_UBRRH (u8 (Z.shiftr baudrate 8))) s in
  let s := set_hw (set_UBRRL (u8 baudrate)) s in
  let s := set_hw (set_UCSRB (u8 (Z.lor (Z.lor (Z.shiftl 1 RXCIE) (Z.shiftl 1 RXEN))
                                        (Z.shiftl 1 TXEN)))) s in
  let s := set_hw (set_UCSRC (u8 (Z.lor (Z.shiftl 1 URSEL) (Z.shiftl 3 UCSZ0)))) s in
  set_hw sei s.

(** [UART_CharGetNonBlocking]: the returned [unsigned int] and the state
    it leaves. *)
Definition UART_CharGetNonBlocking (s : state) : Z * state :=
  if UART_RxHead s =? UART_RxTail s then (UART_NO_DATA, s)
  else
    let tmptail := u8 (Z.land (UART_RxTail s + 1) UART_RX_BUFFER_MASK) in
    let s := set_RxTail tmptail s in
    let data := rd (UART_RxBuf s) tmptail in
    (u16 (Z.shiftl (UART_LastRxError s) 8 + data), s).

Definition run_irq (i : irq) (s : state) : state :=
  match i with
  | RXC usr data => ISR_UART_RECEIVE_INTERRUPT usr data s
  | UDRE => ISR_UART_TRANSMIT_INTERRUPT s
  end.

(** The loop [while (tmphead == UART_TxTail) ;] of
    [UART_CharPutNonBlocking].  Each turn reads [UART_TxTail]; while the
    test holds, the next handler of the schedule runs before the next
    read.  When the schedule is used up and the test still holds, the
    call is still spinning. *)
Fixpoint wait_for_space (tmphead : Z) (irqs : list irq) (s : state)
  : outcome (list irq * state) :=
  if tmphead =? UART_TxTail s then
    match irqs with
    | [] => Spins
    | i :: irqs' => wait_for_space tmphead irqs' (run_irq i s)
    end
  else Returns (irqs, s).

(** [UART_CharPutNonBlocking]: returns the unused rest of the schedule
    and the state. *)
Definition UART_CharPutNonBlocking (data : Z) (irqs : list irq) (s : state)
  : outcome (list irq * state) :=
  let tmphead := u8 (Z.land (UART_TxHead s + 1) UART_TX_BUFFER_MASK) in
  match wait_for_space tmphead irqs s with
  | Returns (irqs', s) =>
      let s := set_TxBuf (wr (UART_TxBuf s) tmphead data) s in
      let s := set_TxHead tmphead s in
      Returns (irqs',
               set_hw (λ r, set_UCSRB (u8 (Z.lor (UCSRB r) (Z.shiftl 1 UART_UDRIE))) r) s)
  | Spins => Spins
  | OutOfBounds => OutOfBounds
  end.

(** [UART_StringPutNonBlocking]; [str] is the [char] array from [s] to its
    end.  Reading on past the last element is out of bounds.  A [char]
    passed to [UART_CharPutNonBlocking] is converted to [unsigned char]. *)
Fixpoint UART_StringPutNonBlocking (str : list Z) (irqs : list irq) (s : state)
  : outcome (list irq * state) :=
  match str with
  | [] => OutOfBounds
  | c :: str' =>
      if c =? 0 then Returns (irqs, s)
      else
        match UART_CharPutNonBlocking (u8 c) irqs s with
        | Returns (irqs', s') => UART_StringPutNonBlocking str' irqs' s'
        | Spins => Spins
        | OutOfBounds => OutOfBounds
        end
  end.

(** [UART_CharsAvail].  The operands are promoted to [int]; [%] truncates
    towards zero. *)
Definition UART_CharsAvail (s : state) : Z :=
  Z.rem (UART_RX_BUFFER_MASK + UART_RxHead s - UART_RxTail s) UART_RX_BUFFER_MASK.

(** [UART_FlushBuffer]. *)
Definition UART_FlushBuffer (s : state) : state :=
  set_RxHead (UART_RxTail s) s.

(** ** Runs *)

(** A burst of receive interrupts, given as (status, data) pairs. *)
Definition rx_all (arrivals : list (Z * Z)) (s : state) : state :=
  foldl (λ s a, ISR_UART_RECEIVE_INTERRUPT a.1 a.2 s) s arrivals.

Definition run_irqs (irqs : list irq) (s : state) : state :=
  foldl (λ s i, run_irq i s) s irqs.

(** [n] calls of [UART_CharGetNonBlocking] in a row: the values returned,
    in call order, and the final state. *)
Fixpoint get_n (n : nat) (s : state) : list Z * state :=
  match n with
  | O => ([], s)
  | S n' =>
      let '(r, s1) := UART_CharGetNonBlocking s in
      let '(rs, s2) := get_n n' s1 in
      (r :: rs, s2)
  end.

(** [n] transmit interrupts in a row. *)
Definition tx_drain (n : nat) (s : state) : state :=
  Nat.iter n ISR_UART_TRANSMIT_INTERRUPT s.

(** [UART_CharPutNonBlocking] applied to each element of [cs], first to
    last, each call continuing with the schedule the previous one left. *)
Fixpoint put_all (cs : list Z) (irqs : list irq) (s : state)
  : outcome (list irq * state) :=
  match cs with
  | [] => Returns (irqs, s)
  | c :: cs' =>
      match UART_CharPutNonBlocking c irqs s with
      | Returns (irqs', s') => put_all cs' irqs' s'
      | Spins => Spins
      | OutOfBounds => OutOfBounds
      end
  end.

(** The entry points of the driver, as seen from outside. *)
Inductive call : Type :=
| CallInit (baudrate : Z)
| CallIrq (i : irq)
| CallCharGet
| CallCharPut (data : Z) (irqs : list irq)
| CallStringPut (str : list Z) (irqs : list irq)
| CallCharsAvail
| CallFlushBuffer.

Definition finished (o : outcome (list irq * state)) : option state :=
  match o with
  | Returns (_, s) => Some s
  | _ => None
  end.

(** One completed call.  A put that is still spinning at the end of its
    schedule, or a string without terminator, is not a completed call. *)
Definition step (c : call) (s : state) : option state :=
  match c with
  | CallInit baudrate => Some (UART_Init baudrate s)
  | CallIrq i => Some (run_irq i s)
  | CallCharGet => Some (UART_CharGetNonBlocking s).2
  | CallCharPut data irqs => finished (UART_CharPutNonBlocking data irqs s)
  | CallStringPut str irqs => finished (UART_StringPutNonBlocking str irqs s)
  | CallCharsAvail => Some s
  | CallFlushBuffer => Some (UART_FlushBuffer s)
  end.

(** ** Well-formedness *)

Definition byte (x : Z) : Prop := 0 ≤ x < 256.

(** Registers deliver bytes; arguments are of their C types. *)
Definition irq_ok (i : irq) : Prop :=
  match i with
  | RXC usr data => byte usr ∧ byte data
  | UDRE => True
  end.

Definition call_ok (c : call) : Prop :=
  match c with
  | CallInit baudrate => 0 ≤ baudrate < 65536
  | CallIrq i => irq_ok i
  | CallCharPut data irqs => byte data ∧ Forall irq_ok irqs
  | CallStringPut _ irqs => Forall irq_ok irqs
  | _ => True
  end.

(** The buffer sizes are powers of two that an [unsigned char] index can
    address. *)
Definition size_ok (C : Z) : Prop := ∃ k : Z, 1 ≤ k ≤ 8 ∧ C = 2 ^ k.
Definition rx_size_ok : Prop := size_ok UART_RX_BUFFER_SIZE.
Definition tx_size_ok : Prop := size_ok UART_TX_BUFFER_SIZE.

Definition udrie_ok : Prop := 0 ≤ UART_UDRIE < 8.

(** The error flags of the status register are not its bit 0. *)
Definition flags_ok : Prop := 0 < FE < 8 ∧ 0 < DOR < 8.

(** The arrays have their declared lengths. *)
Definition bufs_ok (s : state) : Prop :=
  length (UART_RxBuf s) = Z.to_nat UART_RX_BUFFER_SIZE ∧
  length (UART_TxBuf s) = Z.to_nat UART_TX_BUFFER_SIZE.

(** The four indices lie inside their buffers. *)
Definition idx_ok (s : state) : Prop :=
  (0 ≤ UART_RxHead s < UART_RX_BUFFER_SIZE ∧
   0 ≤ UART_RxTail s < UART_RX_BUFFER_SIZE) ∧
  (0 ≤ UART_TxHead s < UART_TX_BUFFER_SIZE ∧
   0 ≤ UART_TxTail s < UART_TX_BUFFER_SIZE).

(** The [unsigned char] objects hold bytes. *)
Definition bytes_ok (s : state) : Prop :=
  Forall byte (UART_RxBuf s) ∧ Forall byte (UART_TxBuf s) ∧
  byte (UART_LastRxError s).

(** One ring at a time: indices inside the array of the declared length. *)
Definition rx_ok (s : state) : Prop :=
  0 ≤ UART_RxHead s < UART_RX_BUFFER_SIZE ∧
  0 ≤ UART_RxTail s < UART_RX_BUFFER_SIZE ∧
  length (UART_RxBuf s) = Z.to_nat UART_RX_BUFFER_SIZE.
Definition tx_ok (s : state) : Prop :=
  0 ≤ UART_TxHead s < UART_TX_BUFFER_SIZE ∧
  0 ≤ UART_TxTail s < UART_TX_BUFFER_SIZE ∧
  length (UART_TxBuf s) = Z.to_nat UART_TX_BUFFER_SIZE.

(** The arrays keep their lengths and hold bytes. *)
Definition store_ok (s : state) : Prop := bufs_ok s ∧ bytes_ok s.

(** Bit 0 of the stored error code is clear. *)
Definition err_ok (s : state) : Prop := Z.testbit (UART_LastRxError s) 0 = false.

Definition sizes_pos : Prop :=
  1 ≤ UART_RX_BUFFER_SIZE ∧ 1 ≤ UART_TX_BUFFER_SIZE.

(** ** The queue a ring buffer represents *)

(** Number of live elements of a ring of capacity [C]. *)
Definition ring_count (C head tail : Z) : Z := (head - tail) mod C.

(** The live elements, oldest first: the slots [tail+1 .. head],
    wrapping at [C]. *)
Definition ring_live (C : Z) (buf : list Z) (head tail : Z) : list Z :=
  (λ i, rd buf ((tail + 1 + i) mod C)) <$> seqZ 0 (ring_count C head tail).

Definition ring_full (C head tail : Z) : Prop := (head + 1) mod C = tail.

Definition rx_count (s : state) : Z :=
  ring_count UART_RX_BUFFER_SIZE (UART_RxHead s) (UART_RxTail s).
Definition tx_count (s : state) : Z :=
  ring_count UART_TX_BUFFER_SIZE (UART_TxHead s) (UART_TxTail s).
Definition rx_live (s : state) : list Z :=
  ring_live UART_RX_BUFFER_SIZE (UART_RxBuf s) (UART_RxHead s) (UART_RxTail s).
Definition tx_live (s : state) : list Z :=
  ring_live UART_TX_BUFFER_SIZE (UART_TxBuf s) (UART_TxHead s) (UART_TxTail s).
Definition rx_full (s : state) : Prop :=
  ring_full UART_RX_BUFFER_SIZE (UART_RxHead s) (UART_RxTail s).
Definition tx_full (s : state) : Prop :=
  ring_full UART_TX_BUFFER_SIZE (UART_TxHead s) (UART_TxTail s).

(** ** Reachable states *)

(** At program start the module-level variables are zero (static storage);
    the registers are whatever the device holds. *)
Definition power_on (r : regs) : state :=
  State (replicate (Z.to_nat UART_TX_BUFFER_SIZE) 0)
        (replicate (Z.to_nat UART_RX_BUFFER_SIZE) 0) 0 0 0 0 0 r.

Inductive reachable : state → Prop :=
| reachable_power_on r : reachable (power_on r)
| reachable_step c s s' :
    reachable s → call_ok c → step c s = Some s' → reachable s'.

End Driver.

(** ** Concrete configurations and states *)

(** Bit positions of the ATmega16, the device named in [uart.h]. *)
Definition ATmega16 (rx_size tx_size : Z) : config :=
  Config rx_size tx_size 4 3 1 7 4 3 5 7 1.

(** The sizes [uart.h] chooses by default. *)
Definition cfg32 : config := ATmega16 32 32.
(** The capacity 4 of the scenarios of the specification. *)
Definition cfg4 : config := ATmega16 4 4.

Definition regs0 : regs := Regs 0x20 0 0x86 0 0 [] false.

(** After [UART_Init]. *)
Definition s_init32 : state := UART_Init (cfg := cfg32) 51 (power_on (cfg := cfg32) regs0).
Definition s_init4 : state := UART_Init (cfg := cfg4) 51 (power_on (cfg := cfg4) regs0).

(** Bytes arriving without error. *)
Definition arrive (l : list Z) : list (Z * Z) := (λ d, (0, d)) <$> l.

(** [n] bytes 1, 2, ..., [n]. *)
Definition bytes_upto (n : Z) : list Z := seqZ 1 n.

(** The receive buffer of size 32 after 31 bytes arrived unread: full. *)
Definition s_full32 : state := rx_all (cfg := cfg32) (arrive (bytes_upto 31)) s_init32.

(** Two bytes buffered. *)
Definition s_two32 : state := rx_all (cfg := cfg32) (arrive [65; 66]) s_init32.

(** The full buffer drained by 31 gets, then one more byte arrived: the
    head has wrapped to slot 0, the tail is at slot 31. *)
Definition s_wrap32 : state :=
  ISR_UART_RECEIVE_INTERRUPT (cfg := cfg32) 0 65 (get_n (cfg := cfg32) 31 s_full32).2.

(** The state a call leaves when it returns; the state before it
    otherwise. *)
Definition after (s : state) (o : outcome (list irq * state)) : state :=
  match o with
  | Returns (_, s') => s'
  | _ => s
  end.

(** Capacity 4, three bytes put and none sent yet: the transmit buffer is
    full. *)
Definition s_txfull4 : state :=
  after s_init4 (put_all (cfg := cfg4) [65; 66; 67] [] s_init4).

(** ** Baud rate selection and receive histories *)

(** [UART_BAUD_SELECT(baudRate, xtalCpu)] and
    [UART_BAUD_SELECT_DOUBLE_SPEED(baudRate, xtalCpu)] of [uart.h].  The
    constant [16l] (resp. [8l]) makes the arithmetic [long]; [/] truncates
    towards zero.  The values are the mathematical ones: they are those of
    the C expressions as long as the operands and the product fit a
    [long]. *)
Definition UART_BAUD_SELECT (baudRate xtalCpu : Z) : Z :=
  xtalCpu ÷ (baudRate * 16) - 1.
Definition UART_BAUD_SELECT_DOUBLE_SPEED (baudRate xtalCpu : Z) : Z :=
  Z.lor (xtalCpu ÷ (baudRate * 8) - 1) 0x8000.

(** What happens to the receive ring, seen from outside: a byte arrives
    (receive interrupt), the application reads
    ([UART_CharGetNonBlocking]) or flushes ([UART_FlushBuffer]). *)
Inductive rx_event : Type :=
| Arrive (usr data : Z)
| Read
| Flush.

(** A byte that left the ring: handed to the application, or thrown away
    by a flush. *)
Inductive departure : Type :=
| Delivered (b : Z)
| Discarded (b : Z).

Definition departed_byte (d : departure) : Z :=
  match d with
  | Delivered b => b
  | Discarded b => b
  end.

(** The book-keeping of a run: the bytes the interrupt stored, the bytes
    it dropped, and the bytes that left, each in order. *)
Record rx_log : Type := RxLog {
  accepted : list Z;
  dropped : list Z;
  departed : list departure
}.

Definition no_log : rx_log := RxLog [] [] [].

Definition arrivals_of (evs : list rx_event) : list Z :=
  omap (λ e, match e with Arrive _ data => Some data | _ => None end) evs.

Definition is_flush (e : rx_event) : bool :=
  match e with
  | Flush => true
  | _ => false
  end.

Definition is_delivered (d : departure) : bool :=
  match d with
  | Delivered _ => true
  | Discarded _ => false
  end.

Definition rx_event_ok (e : rx_event) : Prop :=
  match e with
  | Arrive usr data => 0 ≤ usr < 256 ∧ 0 ≤ data < 256
  | _ => True
  end.

Section History.
Context {cfg : config}.

(** Runs the events on the driver and keeps the log.  Whether the
    interrupt stored its byte is read off the head index (it moved or it
    did not); whether a read delivered a byte is read off the tail
    index. *)
Fixpoint rx_history (evs : list rx_event) (s : state) (log : rx_log)
  : rx_log * state :=
  match evs with
  | [] => (log, s)
  | Arrive usr data :: evs' =>
      let s' := ISR_UART_RECEIVE_INTERRUPT usr data s in
      let log' :=
        if UART_RxHead s' =? UART_RxHead s
        then RxLog (accepted log) (dropped log ++ [data]) (departed log)
        else RxLog (accepted log ++ [data]) (dropped log) (departed log) in
      rx_history evs' s' log'
  | Read :: evs' =>
      let '(r, s') := UART_CharGetNonBlocking s in
      let log' :=
        if UART_RxTail s' =? UART_RxTail s
        then log
        else RxLog (accepted log) (dropped log)
                   (departed log ++ [Delivered (r mod 256)]) in
      rx_history evs' s' log'
  | Flush :: evs' =>
      let log' :=
        RxLog (accepted log) (dropped log)
              (departed log ++ (Discarded <$> rx_live s)) in
      rx_history evs' (UART_FlushBuffer s) log'
  end.

End History.

(** * Properties *)

(** ** Arithmetic of masked indices *)

Section Ring.
Context {cfg : config}.

Lemma size_ok_bounds C : size_ok C → 2 ≤ C ≤ 256.
Proof.
  intros (k & Hk & ->). split.
  - change 2 with (2 ^ 1). apply Z.pow_le_mono_r; lia.
  - change 256 with (2 ^ 8). apply Z.pow_le_mono_r; lia.
Qed.

(** Masking with [C - 1] and storing into an [unsigned char] is reduction
    modulo [C]. *)
Lemma u8_mask C x : size_ok C → u8 (Z.land x (C - 1)) = x mod C.
Proof.
  intros HC. pose proof (size_ok_bounds C HC) as HB.
  destruct HC as (k & Hk & ->).
  replace (2 ^ k - 1) with (Z.ones k) by (rewrite Z.ones_equiv; lia).
  rewrite Z.land_ones by lia. unfold u8.
  apply Z.mod_small.
  pose proof (Z.mod_pos_bound x (2 ^ k)). lia.
Qed.

Lemma mod_range C x : 2 ≤ C → 0 ≤ x mod C < C.
Proof. intros. apply Z.mod_pos_bound. lia. Qed.

(** The successor of an index is another index. *)
Lemma next_ne C t : 2 ≤ C → (t + 1) mod C ≠ t.
Proof.
  intros HC Heq.
  assert (Ht : 0 ≤ t < C) by (rewrite <- Heq; apply mod_range; lia).
  destruct (decide (t + 1 < C)) as [Hlt|Hge].
  - rewrite Z.mod_small in Heq by lia. lia.
  - assert (t + 1 = C) as Ht1 by lia.
    rewrite Ht1, Z.mod_same in Heq by lia. lia.
Qed.

Lemma ring_count_range C h t : 2 ≤ C → 0 ≤ ring_count C h t ≤ C - 1.
Proof. intros. unfold ring_count. pose proof (mod_range C (h - t)). lia. Qed.

Lemma ring_count_empty C h t :
  2 ≤ C → 0 ≤ h < C → 0 ≤ t < C → ring_count C h t = 0 ↔ h = t.
Proof.
  intros HC Hh Ht. unfold ring_count. split.
  - intros H0. destruct (decide (t ≤ h)).
    + rewrite Z.mod_small in H0 by lia. lia.
    + replace (h - t) with ((h - t + C) + (-1) * C) in H0 by lia.
      rewrite Z.mod_add, Z.mod_small in H0 by lia. lia.
  - intros ->. rewrite Z.sub_diag. apply Z.mod_0_l. lia.
Qed.

(** Full means [C - 1] live elements. *)
Lemma ring_full_count C h t :
  2 ≤ C → 0 ≤ h < C → 0 ≤ t < C →
  ring_full C h t ↔ ring_count C h t = C - 1.
Proof.
  intros HC Hh Ht. unfold ring_full, ring_count.
  destruct (decide (t ≤ h)) as [Hle|Hgt].
  - rewrite (Z.mod_small (h - t)) by lia.
    destruct (decide (h + 1 < C)).
    + rewrite Z.mod_small by lia. lia.
    + assert (h + 1 = C) as -> by lia. rewrite Z.mod_same by lia. lia.
  - replace (h - t) with ((h - t + C) + (-1) * C) by lia.
    rewrite Z.mod_add, (Z.mod_small (h - t + C)) by lia.
    rewrite Z.mod_small by lia. lia.
Qed.

(** Advancing the head of a ring that is not full adds one element. *)
Lemma ring_count_push C h t :
  2 ≤ C → 0 ≤ h < C → 0 ≤ t < C → ¬ ring_full C h t →
  ring_count C ((h + 1) mod C) t = ring_count C h t + 1.
Proof.
  intros HC Hh Ht Hnf.
  assert (ring_count C h t ≠ C - 1) as Hn by (rewrite <- ring_full_count; done).
  pose proof (ring_count_range C h t HC) as Hr.
  unfold ring_count in *.
  rewrite Zminus_mod_idemp_l.
  replace (h + 1 - t) with (1 + (h - t)) by lia.
  rewrite <- Zplus_mod_idemp_r.
  rewrite Z.mod_small; lia.
Qed.

(** Advancing the tail of a ring that is not empty removes one. *)
Lemma ring_count_pop C h t :
  2 ≤ C → 0 ≤ h < C → 0 ≤ t < C → h ≠ t →
  ring_count C h ((t + 1) mod C) = ring_count C h t - 1.
Proof.
  intros HC Hh Ht Hne.
  assert (ring_count C h t ≠ 0) as Hn by (rewrite ring_count_empty; done).
  pose proof (ring_count_range C h t HC) as Hr.
  unfold ring_count in *.
  rewrite Zminus_mod_idemp_r.
  replace (h - (t + 1)) with ((h - t) + (-1)) by lia.
  rewrite <- Zplus_mod_idemp_l.
  rewrite Z.mod_small; lia.
Qed.

Lemma ring_live_length C buf h t :
  length (ring_live C buf h t) = Z.to_nat (ring_count C h t).
Proof. unfold ring_live. by rewrite length_fmap, length_seqZ. Qed.

(** The slot of the [i]-th live element is not the slot of the [n]-th,
    for [i < n < C]. *)
Lemma slot_ne C t i n :
  2 ≤ C → 0 ≤ i < n → n < C → (t + 1 + i) mod C ≠ (t + 1 + n) mod C.
Proof.
  intros HC Hi Hn Heq.
  assert ((n - i) mod C = 0) as H0.
  { replace (n - i) with ((t + 1 + n) - (t + 1 + i)) by lia.
    rewrite Zminus_mod, Heq, Z.sub_diag. apply Z.mod_0_l. lia. }
  rewrite Z.mod_small in H0; lia.
Qed.

Lemma rd_wr_eq buf i v : 0 ≤ i → (Z.to_nat i < length buf)%nat → rd (wr buf i v) i = v.
Proof. intros Hi Hl. unfold rd, wr. by rewrite list_lookup_insert_eq. Qed.

Lemma rd_wr_ne buf i j v : 0 ≤ i → 0 ≤ j → i ≠ j → rd (wr buf i v) j = rd buf j.
Proof.
  intros Hi Hj Hne. unfold rd, wr. rewrite list_lookup_insert_ne; [done|lia].
Qed.

(** Storing at the advanced head appends to the queue. *)
Lemma ring_live_push C buf h t d :
  2 ≤ C → 0 ≤ h < C → 0 ≤ t < C → length buf = Z.to_nat C →
  ¬ ring_full C h t →
  ring_live C (wr buf ((h + 1) mod C) d) ((h + 1) mod C) t
  = ring_live C buf h t ++ [d].
Proof.
  intros HC Hh Ht Hlen Hnf.
  assert (ring_count C h t ≠ C - 1) as Hn by (rewrite <- ring_full_count; done).
  pose proof (ring_count_range C h t HC) as Hr.
  assert ((t + 1 + ring_count C h t) mod C = (h + 1) mod C) as Hslot.
  { unfold ring_count. rewrite Zplus_mod_idemp_r. f_equal. lia. }
  unfold ring_live. rewrite ring_count_push by done.
  rewrite seqZ_app, fmap_app by lia. f_equal.
  - apply list_fmap_ext. intros j i Hi.
    apply lookup_seqZ in Hi as [-> Hi].
    apply rd_wr_ne; [apply mod_range; lia..|].
    rewrite <- Hslot. intros Heq. symmetry in Heq. revert Heq.
    apply slot_ne; lia.
  - rewrite seqZ_cons, seqZ_nil by lia. simpl. f_equal.
    rewrite Z.add_0_l, Hslot. apply rd_wr_eq; [apply mod_range; lia|].
    pose proof (mod_range C (h + 1) HC). lia.
Qed.

(** The element after the tail is the oldest of the queue. *)
Lemma ring_live_pop C buf h t :
  2 ≤ C → 0 ≤ h < C → 0 ≤ t < C → h ≠ t →
  ring_live C buf h t
  = rd buf ((t + 1) mod C) :: ring_live C buf h ((t + 1) mod C).
Proof.
  intros HC Hh Ht Hne.
  assert (ring_count C h t ≠ 0) as Hn by (rewrite ring_count_empty; done).
  pose proof (ring_count_range C h t HC) as Hr.
  unfold ring_live. rewrite ring_count_pop by done.
  rewrite (seqZ_cons 0) by lia. rewrite fmap_cons. f_equal.
  - f_equal. f_equal. lia.
  - replace (Z.succ 0) with (1 + 0) by lia. rewrite <- fmap_add_seqZ.
    rewrite <- list_fmap_compose. replace (Z.pred (ring_count C h t)) with (ring_count C h t - 1) by lia.
    apply list_fmap_ext. intros j i Hi. simpl. f_equal.
    rewrite <- (Z.add_assoc ((t + 1) mod C)), Zplus_mod_idemp_l. f_equal.
Qed.

End Ring.

(** ** The operations, one by one *)

Section Operations.
Context {cfg : config}.

(** A masked value lies between 0 and the mask, power of two or not. *)
Lemma land_mask_range x m : 0 ≤ m → 0 ≤ Z.land x m ≤ m.
Proof.
  intros Hm. split; [apply Z.land_nonneg; by right|].
  assert (Z.land (Z.ldiff m x) (Z.land x m) = 0) as Hdisj.
  { rewrite Z.land_assoc, Z.land_ldiff. apply Z.land_0_l. }
  assert (0 ≤ Z.ldiff m x) by (apply Z.ldiff_nonneg; by left).
  assert (m = Z.ldiff m x + Z.land x m) as Hsum.
  { rewrite Z.add_nocarry_lxor, Z.lxor_lor by done.
    by rewrite (Z.land_comm x m), Z.lor_ldiff_and. }
  lia.
Qed.

Lemma u8_mask_range x C : 1 ≤ C → 0 ≤ u8 (Z.land x (C - 1)) < C.
Proof.
  intros HC. pose proof (land_mask_range x (C - 1)) as Hr. unfold u8.
  pose proof (Z.mod_pos_bound (Z.land x (C - 1)) 256).
  pose proof (Z.mod_le (Z.land x (C - 1)) 256). lia.
Qed.

Lemma testbit_1 k : Z.testbit 1 k = (k =? 0).
Proof. destruct k as [|p|p]; try done; by destruct p. Qed.

Lemma testbit_bit n m : 0 ≤ m → Z.testbit (Z.shiftl 1 n) m = (m =? n).
Proof.
  intros Hm. rewrite Z.shiftl_spec, testbit_1 by done.
  destruct (Z.eqb_spec (m - n) 0), (Z.eqb_spec m n); lia || done.
Qed.

Lemma u8_testbit x m : 0 ≤ m < 8 → Z.testbit (u8 x) m = Z.testbit x m.
Proof. intros Hm. unfold u8. change 256 with (2 ^ 8). apply Z.mod_pow2_bits_low. lia. Qed.

Lemma u8_byte x : byte (u8 x).
Proof. unfold byte, u8. apply Z.mod_pos_bound. lia. Qed.

(** *** Receive interrupt *)

Lemma rx_isr_full usr data s :
  rx_size_ok → rx_full s →
  ISR_UART_RECEIVE_INTERRUPT usr data s = set_LastRxError 2 s.
Proof.
  intros HC Hfull. unfold ISR_UART_RECEIVE_INTERRUPT, UART_RX_BUFFER_MASK.
  rewrite u8_mask by done.
  unfold rx_full, ring_full in Hfull. rewrite Hfull, Z.eqb_refl. done.
Qed.

Lemma rx_isr_store usr data s :
  rx_size_ok → ¬ rx_full s →
  let next := (UART_RxHead s + 1) mod UART_RX_BUFFER_SIZE in
  ISR_UART_RECEIVE_INTERRUPT usr data s
  = set_LastRxError (u8 (Z.land usr (Z.lor (Z.shiftl 1 FE) (Z.shiftl 1 DOR))))
      (set_RxBuf (wr (UART_RxBuf s) next data) (set_RxHead next s)).
Proof.
  intros HC Hnf next. unfold ISR_UART_RECEIVE_INTERRUPT, UART_RX_BUFFER_MASK.
  rewrite u8_mask by done. fold next.
  unfold rx_full, ring_full in Hnf. fold next in Hnf.
  destruct (Z.eqb_spec next (UART_RxTail s)); done.
Qed.

(** *** Transmit interrupt *)

Lemma tx_isr_send s :
  tx_size_ok → UART_TxHead s ≠ UART_TxTail s →
  let next := (UART_TxTail s + 1) mod UART_TX_BUFFER_SIZE in
  ISR_UART_TRANSMIT_INTERRUPT s
  = set_hw (write_UDR (rd (UART_TxBuf s) next)) (set_TxTail next s).
Proof.
  intros HC Hne next. unfold ISR_UART_TRANSMIT_INTERRUPT, UART_TX_BUFFER_MASK.
  destruct (Z.eqb_spec (UART_TxHead s) (UART_TxTail s)); [done|]. simpl.
  by rewrite u8_mask.
Qed.

Lemma tx_isr_idle s :
  UART_TxHead s = UART_TxTail s →
  ISR_UART_TRANSMIT_INTERRUPT s
  = set_hw (λ r, set_UCSRB (u8 (Z.land (UCSRB r) (Z.lnot (Z.shiftl 1 UART_UDRIE)))) r) s.
Proof.
  intros Heq. unfold ISR_UART_TRANSMIT_INTERRUPT.
  by rewrite Heq, Z.eqb_refl.
Qed.

(** *** Receive consumer *)

Lemma get_empty s :
  UART_RxHead s = UART_RxTail s → UART_CharGetNonBlocking s = (UART_NO_DATA, s).
Proof. intros Heq. unfold UART_CharGetNonBlocking. by rewrite Heq, Z.eqb_refl. Qed.

Lemma get_take s :
  rx_size_ok → UART_RxHead s ≠ UART_RxTail s →
  let next := (UART_RxTail s + 1) mod UART_RX_BUFFER_SIZE in
  UART_CharGetNonBlocking s
  = (u16 (Z.shiftl (UART_LastRxError s) 8 + rd (UART_RxBuf s) next), set_RxTail next s).
Proof.
  intros HC Hne next. unfold UART_CharGetNonBlocking, UART_RX_BUFFER_MASK.
  destruct (Z.eqb_spec (UART_RxHead s) (UART_RxTail s)); [done|].
  by rewrite u8_mask.
Qed.

(** The composite keeps both bytes apart. *)
Lemma composite_bytes e d :
  byte e → byte d →
  u16 (Z.shiftl e 8 + d) = 256 * e + d ∧
  u16 (Z.shiftl e 8 + d) / 256 = e ∧ u16 (Z.shiftl e 8 + d) mod 256 = d.
Proof.
  unfold byte, u16. intros He Hd. rewrite Z.shiftl_mul_pow2 by lia.
  change (2 ^ 8) with 256. rewrite Z.mod_small by lia.
  split; [lia|]. split.
  - rewrite Z.div_add_l by lia. rewrite Z.div_small; lia.
  - rewrite Z.add_comm, Z.mod_add by lia. apply Z.mod_small; lia.
Qed.

Lemma composite_low e d : byte d → u16 (Z.shiftl e 8 + d) mod 256 = d.
Proof.
  unfold byte, u16. intros Hd. rewrite Z.shiftl_mul_pow2 by lia.
  change (2 ^ 8) with 256.
  rewrite Z.mod_mod_divide by (exists 256; lia).
  rewrite Z.add_comm, Z.mod_add by lia. apply Z.mod_small; lia.
Qed.

Lemma rd_byte buf i : Forall byte buf → byte (rd buf i).
Proof.
  intros Hb. unfold rd. destruct (buf !! Z.to_nat i) as [x|] eqn:Hx; simpl.
  - by eapply Forall_lookup_1.
  - unfold byte; lia.
Qed.

(** *** Transmit producer *)

(** The tail of [UART_CharPutNonBlocking] after its loop: store, advance
    the head, enable the data-register-empty interrupt. *)
Lemma put_not_full data irqs s :
  tx_size_ok → ¬ tx_full s →
  let next := (UART_TxHead s + 1) mod UART_TX_BUFFER_SIZE in
  UART_CharPutNonBlocking data irqs s
  = Returns (irqs,
      set_hw (λ r, set_UCSRB (u8 (Z.lor (UCSRB r) (Z.shiftl 1 UART_UDRIE))) r)
        (set_TxHead next (set_TxBuf (wr (UART_TxBuf s) next data) s))).
Proof.
  intros HC Hnf next. unfold UART_CharPutNonBlocking, UART_TX_BUFFER_MASK.
  rewrite u8_mask by done. fold next.
  unfold tx_full, ring_full in Hnf. fold next in Hnf.
  destruct irqs; simpl; destruct (Z.eqb_spec next (UART_TxTail s)); done.
Qed.

Lemma put_full_step data i irqs s :
  tx_size_ok → tx_full s →
  UART_TxHead (run_irq i s) = UART_TxHead s →
  UART_CharPutNonBlocking data (i :: irqs) s
  = UART_CharPutNonBlocking data irqs (run_irq i s).
Proof.
  intros HC Hfull Hh. unfold UART_CharPutNonBlocking, UART_TX_BUFFER_MASK.
  rewrite Hh, u8_mask by done.
  unfold tx_full, ring_full in Hfull. simpl.
  by rewrite Hfull, Z.eqb_refl.
Qed.

Lemma put_full_spins data s :
  tx_size_ok → tx_full s → UART_CharPutNonBlocking data [] s = Spins.
Proof.
  intros HC Hfull. unfold UART_CharPutNonBlocking, UART_TX_BUFFER_MASK.
  rewrite u8_mask by done.
  unfold tx_full, ring_full in Hfull. simpl.
  by rewrite Hfull, Z.eqb_refl.
Qed.

End Operations.

(** ** Invariants of the reachable states *)

(** A property that every entry point preserves holds of every reachable
    state. *)
Section Invariant.
Context {cfg : config}.
Variable P : state → Prop.
Hypothesis P_power_on : ∀ r, P (power_on r).
Hypothesis P_init : ∀ baudrate s, P s → P (UART_Init baudrate s).
Hypothesis P_rx : ∀ usr data s,
  byte usr → byte data → P s → P (ISR_UART_RECEIVE_INTERRUPT usr data s).
Hypothesis P_tx : ∀ s, P s → P (ISR_UART_TRANSMIT_INTERRUPT s).
Hypothesis P_get : ∀ s, P s → P (UART_CharGetNonBlocking s).2.
Hypothesis P_store : ∀ x data s,
  byte data → P s →
  let tmphead := u8 (Z.land x UART_TX_BUFFER_MASK) in
  P (set_hw (λ r, set_UCSRB (u8 (Z.lor (UCSRB r) (Z.shiftl 1 UART_UDRIE))) r)
       (set_TxHead tmphead (set_TxBuf (wr (UART_TxBuf s) tmphead data) s))).
Hypothesis P_flush : ∀ s, P s → P (UART_FlushBuffer s).

Lemma inv_run_irq i s : irq_ok i → P s → P (run_irq i s).
Proof. destruct i; simpl; [intros []|]; auto. Qed.

Lemma inv_wait tmphead irqs : ∀ s irqs' s',
  Forall irq_ok irqs → P s →
  wait_for_space tmphead irqs s = Returns (irqs', s') →
  P s' ∧ Forall irq_ok irqs'.
Proof.
  induction irqs as [|i irqs IH]; intros s irqs' s' Hok HP; simpl.
  - destruct (tmphead =? UART_TxTail s); [done|]. by intros [= <- <-].
  - destruct (tmphead =? UART_TxTail s).
    + inversion Hok; subst. apply IH; [done|]. by apply inv_run_irq.
    + by intros [= <- <-].
Qed.

Lemma inv_put data irqs s irqs' s' :
  byte data → Forall irq_ok irqs → P s →
  UART_CharPutNonBlocking data irqs s = Returns (irqs', s') →
  P s' ∧ Forall irq_ok irqs'.
Proof.
  intros Hd Hok HP. unfold UART_CharPutNonBlocking.
  destruct (wait_for_space _ irqs s) as [[irqs1 s1]| |] eqn:Hw; [|done..].
  apply inv_wait in Hw as [HP1 Hok1]; [|done..].
  intros [= <- <-]. split; [|done]. by apply P_store.
Qed.

Lemma inv_puts str : ∀ irqs s irqs' s',
  Forall irq_ok irqs → P s →
  UART_StringPutNonBlocking str irqs s = Returns (irqs', s') →
  P s' ∧ Forall irq_ok irqs'.
Proof.
  induction str as [|c str IH]; intros irqs s irqs' s' Hok HP; simpl; [done|].
  destruct (c =? 0); [by intros [= <- <-]|].
  destruct (UART_CharPutNonBlocking _ irqs s) as [[irqs1 s1]| |] eqn:Hp; [|done..].
  apply inv_put in Hp as [HP1 Hok1]; [|apply u8_byte|done..].
  by apply IH.
Qed.

Lemma inv_step c s s' : call_ok c → P s → step c s = Some s' → P s'.
Proof.
  destruct c as [b|i| |data irqs|str irqs| |]; simpl; intros Hc HP.
  - intros [= <-]. auto.
  - intros [= <-]. by apply inv_run_irq.
  - intros [= <-]. auto.
  - destruct Hc as [Hd Hok].
    destruct (UART_CharPutNonBlocking data irqs s) as [[irqs1 s1]| |] eqn:Hp; [|done..].
    intros [= <-]. by apply inv_put in Hp as [? _].
  - destruct (UART_StringPutNonBlocking str irqs s) as [[irqs1 s1]| |] eqn:Hp; [|done..].
    intros [= <-]. by apply inv_puts in Hp as [? _].
  - by intros [= <-].
  - intros [= <-]. auto.
Qed.

Lemma inv_reachable s : reachable s → P s.
Proof. induction 1; eauto using inv_step. Qed.

End Invariant.

Section Invariants.
Context {cfg : config}.

Lemma idx_ok_init baudrate s : sizes_pos → idx_ok (UART_Init baudrate s).
Proof.
  intros [Hrx Htx]. unfold UART_Init.
  destruct (negb _); unfold idx_ok; simpl; lia.
Qed.

Lemma idx_ok_rx usr data s :
  sizes_pos → idx_ok s → idx_ok (ISR_UART_RECEIVE_INTERRUPT usr data s).
Proof.
  intros [Hrx Htx] Hs. unfold ISR_UART_RECEIVE_INTERRUPT, UART_RX_BUFFER_MASK.
  pose proof (u8_mask_range (UART_RxHead s + 1) _ Hrx).
  destruct (_ =? _); unfold idx_ok in *; simpl; lia.
Qed.

Lemma idx_ok_tx s : sizes_pos → idx_ok s → idx_ok (ISR_UART_TRANSMIT_INTERRUPT s).
Proof.
  intros [Hrx Htx] Hs. unfold ISR_UART_TRANSMIT_INTERRUPT, UART_TX_BUFFER_MASK.
  pose proof (u8_mask_range (UART_TxTail s + 1) _ Htx).
  destruct (negb _); unfold idx_ok in *; simpl; lia.
Qed.

Lemma idx_ok_get s : sizes_pos → idx_ok s → idx_ok (UART_CharGetNonBlocking s).2.
Proof.
  intros [Hrx Htx] Hs. unfold UART_CharGetNonBlocking, UART_RX_BUFFER_MASK.
  pose proof (u8_mask_range (UART_RxTail s + 1) _ Hrx).
  destruct (_ =? _); unfold idx_ok in *; simpl; lia.
Qed.

Lemma idx_ok_store x data s :
  sizes_pos → idx_ok s →
  let tmphead := u8 (Z.land x UART_TX_BUFFER_MASK) in
  idx_ok (set_hw (λ r, set_UCSRB (u8 (Z.lor (UCSRB r) (Z.shiftl 1 UART_UDRIE))) r)
            (set_TxHead tmphead (set_TxBuf (wr (UART_TxBuf s) tmphead data) s))).
Proof.
  intros [Hrx Htx] Hs. unfold UART_TX_BUFFER_MASK.
  pose proof (u8_mask_range x _ Htx).
  unfold idx_ok in *; simpl; lia.
Qed.

Lemma idx_ok_flush s : idx_ok s → idx_ok (UART_FlushBuffer s).
Proof. unfold idx_ok, UART_FlushBuffer. simpl. lia. Qed.

Lemma idx_ok_power_on r : sizes_pos → idx_ok (power_on r).
Proof. intros [Hrx Htx]. unfold idx_ok. simpl. lia. Qed.

Lemma reachable_idx_ok s : sizes_pos → reachable s → idx_ok s.
Proof.
  intros Hpos. apply inv_reachable;
    eauto using idx_ok_power_on, idx_ok_init, idx_ok_rx, idx_ok_tx, idx_ok_get,
      idx_ok_flush.
  intros. by apply idx_ok_store.
Qed.

Lemma wr_byte buf i v : byte v → Forall byte buf → Forall byte (wr buf i v).
Proof. intros Hv Hb. unfold wr. by apply Forall_insert. Qed.

Lemma reachable_store_ok s : reachable s → store_ok s.
Proof.
  apply inv_reachable; unfold store_ok, bufs_ok, bytes_ok.
  - intros r. simpl. rewrite !length_replicate.
    repeat split; try apply Forall_replicate; unfold byte; try lia.
  - intros b s0 H0. unfold UART_Init. by destruct (negb _).
  - intros usr data s0 Hu Hd H0. unfold ISR_UART_RECEIVE_INTERRUPT.
    destruct H0 as [[Hl1 Hl2] (Hb1 & Hb2 & Hb3)].
    destruct (_ =? _); simpl; split_and!; auto using u8_byte, wr_byte.
    unfold wr. by rewrite length_insert.
  - intros s0 H0. unfold ISR_UART_TRANSMIT_INTERRUPT. by destruct (negb _).
  - intros s0 H0. unfold UART_CharGetNonBlocking. by destruct (_ =? _).
  - intros x data s0 Hd H0. simpl.
    destruct H0 as [[Hl1 Hl2] (Hb1 & Hb2 & Hb3)].
    split_and!; auto using wr_byte.
    unfold wr. by rewrite length_insert.
  - intros s0 H0. done.
Qed.

Lemma rx_error_even usr :
  flags_ok → Z.testbit (u8 (Z.land usr (Z.lor (Z.shiftl 1 FE) (Z.shiftl 1 DOR)))) 0 = false.
Proof.
  intros [HFE HDOR]. rewrite u8_testbit by lia.
  rewrite Z.land_spec, Z.lor_spec, !testbit_bit by lia.
  destruct (Z.eqb_spec 0 FE), (Z.eqb_spec 0 DOR); lia.
Qed.

Lemma reachable_err_ok s : flags_ok → reachable s → err_ok s.
Proof.
  intros Hf. apply inv_reachable; unfold err_ok.
  - done.
  - intros b s0 H0. unfold UART_Init. by destruct (negb _).
  - intros usr data s0 _ _ H0. unfold ISR_UART_RECEIVE_INTERRUPT.
    destruct (_ =? _); simpl; [done|]. by apply rx_error_even.
  - intros s0 H0. unfold ISR_UART_TRANSMIT_INTERRUPT. by destruct (negb _).
  - intros s0 H0. unfold UART_CharGetNonBlocking. by destruct (_ =? _).
  - done.
  - done.
Qed.

End Invariants.

(** ** Reaching states *)

Section Reaching.
Context {cfg : config}.

Lemma reachable_init baudrate s :
  0 ≤ baudrate < 65536 → reachable s → reachable (UART_Init baudrate s).
Proof. intros Hb Hs. by apply (reachable_step (CallInit baudrate) s). Qed.

Lemma reachable_irq i s : irq_ok i → reachable s → reachable (run_irq i s).
Proof. intros Hi Hs. by apply (reachable_step (CallIrq i) s). Qed.

Lemma reachable_rx_all arrivals : ∀ s,
  Forall (λ a, byte a.1 ∧ byte a.2) arrivals →
  reachable s → reachable (rx_all arrivals s).
Proof.
  induction arrivals as [|[usr data] l IH]; intros s Hok Hs; [done|].
  inversion Hok as [|? ? Ha Hl]; subst. simpl. apply IH; [done|].
  by apply (reachable_irq (RXC usr data)).
Qed.

Lemma reachable_get s : reachable s → reachable (UART_CharGetNonBlocking s).2.
Proof. intros Hs. by apply (reachable_step CallCharGet s). Qed.

Lemma reachable_flush s : reachable s → reachable (UART_FlushBuffer s).
Proof. intros Hs. by apply (reachable_step CallFlushBuffer s). Qed.

End Reaching.

(** ** Buffered count *)

Section CharsAvail.
Context {cfg : config}.

(** What [UART_CharsAvail] computes, against the number of live elements:
    right while the head has not wrapped behind the tail and the buffer
    is not full, zero on a full buffer with the head in front, and one
    short after the head has wrapped. *)
Lemma UART_CharsAvail_value s :
  rx_size_ok → idx_ok s →
  UART_CharsAvail s =
    if UART_RxTail s <=? UART_RxHead s
    then (if rx_count s =? UART_RX_BUFFER_SIZE - 1 then 0 else rx_count s)
    else rx_count s - 1.
Proof.
  intros HC [[Hh Ht] _]. apply size_ok_bounds in HC.
  unfold UART_CharsAvail, UART_RX_BUFFER_MASK, rx_count, ring_count.
  set (C := UART_RX_BUFFER_SIZE) in *.
  set (h := UART_RxHead s) in *. set (t := UART_RxTail s) in *.
  rewrite Z.rem_mod_nonneg by lia.
  destruct (Z.leb_spec t h) as [Hle|Hgt].
  - rewrite (Z.mod_small (h - t)) by lia.
    destruct (Z.eqb_spec (h - t) (C - 1)) as [He|Hne].
    + replace (C - 1 + h - t) with (0 + 2 * (C - 1)) by lia.
      rewrite Z.mod_add by lia. apply Z.mod_0_l. lia.
    + replace (C - 1 + h - t) with ((h - t) + 1 * (C - 1)) by lia.
      rewrite Z.mod_add by lia. apply Z.mod_small. lia.
  - replace (h - t) with ((h - t + C) + (-1) * C) by lia.
    rewrite Z.mod_add, (Z.mod_small (h - t + C)) by lia.
    rewrite Z.mod_small; lia.
Qed.

End CharsAvail.

(** ** The rings as queues *)

Ltac ring_goal :=
  first
    [ done
    | apply ring_live_push; (done || lia)
    | apply ring_count_push; (done || lia)
    | apply ring_live_pop; (done || lia)
    | apply ring_count_pop; (done || lia)
    | unfold wr; by rewrite length_insert
    | lia ].

Section Queue.
Context {cfg : config}.

Lemma rings_ok s : idx_ok s → bufs_ok s → rx_ok s ∧ tx_ok s.
Proof. unfold idx_ok, bufs_ok, rx_ok, tx_ok. intuition. Qed.

(** A stored byte joins the receive queue at its end. *)
Lemma rx_isr_live usr data s :
  rx_size_ok → rx_ok s → ¬ rx_full s →
  let s' := ISR_UART_RECEIVE_INTERRUPT usr data s in
  rx_live s' = rx_live s ++ [data] ∧ rx_count s' = rx_count s + 1 ∧
  rx_ok s' ∧ UART_RxTail s' = UART_RxTail s.
Proof.
  intros HC (Hh & Ht & Hlen) Hnf s'. subst s'.
  pose proof (size_ok_bounds _ HC) as HB.
  pose proof (mod_range UART_RX_BUFFER_SIZE (UART_RxHead s + 1)).
  rewrite rx_isr_store by done.
  unfold rx_live, rx_count, rx_ok. simpl. split_and!; ring_goal.
Qed.

(** A dropped byte leaves the receive queue as it is. *)
Lemma rx_isr_live_full usr data s :
  rx_size_ok → rx_full s →
  let s' := ISR_UART_RECEIVE_INTERRUPT usr data s in
  rx_live s' = rx_live s ∧ rx_count s' = rx_count s ∧
  UART_RxHead s' = UART_RxHead s ∧ UART_RxTail s' = UART_RxTail s.
Proof. intros HC Hfull s'. subst s'. by rewrite rx_isr_full. Qed.

(** A get takes the oldest byte of the receive queue. *)
Lemma get_live s :
  rx_size_ok → rx_ok s → UART_RxHead s ≠ UART_RxTail s →
  ∃ d, rx_live s = d :: rx_live (UART_CharGetNonBlocking s).2 ∧
       (UART_CharGetNonBlocking s).1 = u16 (Z.shiftl (UART_LastRxError s) 8 + d) ∧
       rx_count (UART_CharGetNonBlocking s).2 = rx_count s - 1 ∧
       rx_ok (UART_CharGetNonBlocking s).2 ∧
       UART_LastRxError (UART_CharGetNonBlocking s).2 = UART_LastRxError s.
Proof.
  intros HC (Hh & Ht & Hlen) Hne.
  pose proof (size_ok_bounds _ HC) as HB.
  pose proof (mod_range UART_RX_BUFFER_SIZE (UART_RxTail s + 1)).
  rewrite get_take by done. simpl.
  eexists. unfold rx_live, rx_count, rx_ok. simpl. split_and!; ring_goal.
Qed.

Lemma rx_live_length s : length (rx_live s) = Z.to_nat (rx_count s).
Proof. apply ring_live_length. Qed.

Lemma rx_count_range s : rx_size_ok → 0 ≤ rx_count s ≤ UART_RX_BUFFER_SIZE - 1.
Proof. intros HC. apply ring_count_range. by apply size_ok_bounds in HC as []. Qed.

Lemma rx_full_count s :
  rx_size_ok → rx_ok s → rx_full s ↔ rx_count s = UART_RX_BUFFER_SIZE - 1.
Proof.
  intros HC (Hh & Ht & _). apply ring_full_count; try done.
  by apply size_ok_bounds in HC as [].
Qed.

(** A burst that fits is queued whole, in arrival order. *)
Lemma rx_all_live arrivals : ∀ s,
  rx_size_ok → rx_ok s →
  rx_count s + Z.of_nat (length arrivals) ≤ UART_RX_BUFFER_SIZE - 1 →
  rx_live (rx_all arrivals s) = rx_live s ++ arrivals.*2 ∧
  rx_ok (rx_all arrivals s).
Proof.
  induction arrivals as [|[usr data] l IH]; intros s HC Hok Hfit.
  - simpl. by rewrite app_nil_r.
  - simpl in *.
    assert (¬ rx_full s) as Hnf by (rewrite rx_full_count by done; lia).
    destruct (rx_isr_live usr data s HC Hok Hnf) as (Hl & Hc & Hok' & _).
    destruct (IH (ISR_UART_RECEIVE_INTERRUPT usr data s) HC Hok') as [Hl2 Hok2];
      [lia|].
    unfold rx_all in *. split; [|done].
    by rewrite Hl2, Hl, <- app_assoc.
Qed.

(** [n] gets return the [n] oldest bytes, oldest first, each under the
    error code that was last recorded. *)
Lemma get_n_live n : ∀ s,
  rx_size_ok → rx_ok s → (n ≤ length (rx_live s))%nat →
  (get_n n s).1
    = (λ d, u16 (Z.shiftl (UART_LastRxError s) 8 + d)) <$> take n (rx_live s) ∧
  rx_live (get_n n s).2 = drop n (rx_live s) ∧
  rx_ok (get_n n s).2.
Proof.
  induction n as [|n IH]; intros s HC Hok Hn.
  - simpl. by rewrite drop_0.
  - assert (UART_RxHead s ≠ UART_RxTail s) as Hne.
    { intros Heq. rewrite rx_live_length in Hn.
      unfold rx_count in Hn. rewrite Heq in Hn.
      unfold ring_count in Hn. rewrite Z.sub_diag, Zmod_0_l in Hn. simpl in Hn. lia. }
    destruct (get_live s HC Hok Hne) as (d & Hl & Hr & _ & Hok' & He).
    simpl. destruct (UART_CharGetNonBlocking s) as [r s1] eqn:Hg. simpl in *.
    destruct (IH s1 HC Hok') as (IH1 & IH2 & IH3).
    { rewrite Hl in Hn. simpl in Hn. lia. }
    destruct (get_n n s1) as [rs s2] eqn:Hgn. simpl in *.
    rewrite Hl. simpl. rewrite IH1, He, Hr. done.
Qed.

(** *** Transmit side *)

(** The receive interrupt does not touch the transmit ring. *)
Lemma rx_isr_tx_frame usr data s :
  let s' := ISR_UART_RECEIVE_INTERRUPT usr data s in
  UART_TxBuf s' = UART_TxBuf s ∧ UART_TxHead s' = UART_TxHead s ∧
  UART_TxTail s' = UART_TxTail s.
Proof. simpl. unfold ISR_UART_RECEIVE_INTERRUPT. by destruct (_ =? _). Qed.

Lemma run_irqs_tx_frame irqs : ∀ s,
  Forall (λ i, i ≠ UDRE) irqs →
  let s' := run_irqs irqs s in
  UART_TxBuf s' = UART_TxBuf s ∧ UART_TxHead s' = UART_TxHead s ∧
  UART_TxTail s' = UART_TxTail s.
Proof.
  induction irqs as [|i irqs IH]; intros s Hno; [done|].
  inversion Hno as [|? ? Hi Hrest]; subst. simpl.
  destruct i as [usr data|]; [|done]. simpl.
  destruct (IH (ISR_UART_RECEIVE_INTERRUPT usr data s) Hrest) as (-> & -> & ->).
  apply rx_isr_tx_frame.
Qed.

(** A put into a ring with room appends to the transmit queue. *)
Lemma put_live data irqs s :
  tx_size_ok → tx_ok s → ¬ tx_full s →
  ∃ s', UART_CharPutNonBlocking data irqs s = Returns (irqs, s') ∧
        tx_live s' = tx_live s ++ [data] ∧ tx_count s' = tx_count s + 1 ∧
        tx_ok s' ∧ UART_TxTail s' = UART_TxTail s.
Proof.
  intros HC (Hh & Ht & Hlen) Hnf.
  pose proof (size_ok_bounds _ HC) as HB.
  pose proof (mod_range UART_TX_BUFFER_SIZE (UART_TxHead s + 1)).
  rewrite put_not_full by done. eexists. split; [done|].
  unfold tx_live, tx_count, tx_ok. simpl. split_and!; ring_goal.
Qed.

(** The transmit interrupt takes the oldest byte of the transmit queue
    and hands it to the data register. *)
Lemma tx_isr_live s :
  tx_size_ok → tx_ok s → UART_TxHead s ≠ UART_TxTail s →
  let s' := ISR_UART_TRANSMIT_INTERRUPT s in
  ∃ d, tx_live s = d :: tx_live s' ∧ UDR (hw s') = UDR (hw s) ++ [d] ∧
       tx_count s' = tx_count s - 1 ∧ tx_ok s' ∧
       UART_TxHead s' = UART_TxHead s.
Proof.
  intros HC (Hh & Ht & Hlen) Hne s'. subst s'.
  pose proof (size_ok_bounds _ HC) as HB.
  pose proof (mod_range UART_TX_BUFFER_SIZE (UART_TxTail s + 1)).
  rewrite tx_isr_send by done. eexists.
  unfold tx_live, tx_count, tx_ok. simpl. split_and!; ring_goal.
Qed.

Lemma tx_isr_head s : UART_TxHead (ISR_UART_TRANSMIT_INTERRUPT s) = UART_TxHead s.
Proof. unfold ISR_UART_TRANSMIT_INTERRUPT. by destruct (negb _). Qed.

Lemma tx_full_count s :
  tx_size_ok → tx_ok s → tx_full s ↔ tx_count s = UART_TX_BUFFER_SIZE - 1.
Proof.
  intros HC (Hh & Ht & _). apply ring_full_count; try done.
  by apply size_ok_bounds in HC as [].
Qed.

(** On a full ring the put spins through every schedule that holds no
    transmit interrupt. *)
Lemma put_full_no_udre data irqs : ∀ s,
  tx_size_ok → tx_full s → Forall (λ i, i ≠ UDRE) irqs →
  UART_CharPutNonBlocking data irqs s = Spins.
Proof.
  induction irqs as [|i irqs IH]; intros s HC Hfull Hno.
  - by apply put_full_spins.
  - inversion Hno as [|? ? Hi Hrest]; subst.
    destruct i as [usr data'|]; [|done].
    destruct (rx_isr_tx_frame usr data' s) as (Hb & Hh & Ht).
    rewrite put_full_step by done. apply IH; [done| |done].
    unfold tx_full in *. simpl. by rewrite Hh, Ht.
Qed.

(** On a full ring the put goes through the schedule up to its first
    transmit interrupt and then behaves as a put on the state that
    interrupt leaves. *)
Lemma put_full_until_udre data pre : ∀ post s,
  tx_size_ok → tx_full s → Forall (λ i, i ≠ UDRE) pre →
  UART_CharPutNonBlocking data (pre ++ UDRE :: post) s
  = UART_CharPutNonBlocking data post (run_irqs (pre ++ [UDRE]) s).
Proof.
  induction pre as [|i pre IH]; intros post s HC Hfull Hno.
  - simpl. rewrite put_full_step; [done..|]. apply tx_isr_head.
  - inversion Hno as [|? ? Hi Hrest]; subst.
    destruct i as [usr data'|]; [|done].
    destruct (rx_isr_tx_frame usr data' s) as (Hb & Hh & Ht).
    simpl. rewrite put_full_step by done. apply IH; [done| |done].
    unfold tx_full in *. simpl. by rewrite Hh, Ht.
Qed.

Lemma tx_live_length s : length (tx_live s) = Z.to_nat (tx_count s).
Proof. apply ring_live_length. Qed.

(** A put does not write the data register. *)
Lemma put_udr data irqs s irqs' s' :
  Forall (λ i, i ≠ UDRE) irqs →
  UART_CharPutNonBlocking data irqs s = Returns (irqs', s') →
  UDR (hw s') = UDR (hw s).
Proof.
  unfold UART_CharPutNonBlocking.
  generalize (u8 (Z.land (UART_TxHead s + 1) UART_TX_BUFFER_MASK)). intros tmphead.
  revert s. induction irqs as [|i irqs IH]; intros s Hno; simpl.
  - destruct (tmphead =? UART_TxTail s); [done|]. by intros [= <- <-].
  - destruct (tmphead =? UART_TxTail s); [|by intros [= <- <-]].
    inversion Hno as [|? ? Hi Hrest]; subst.
    destruct i as [usr data'|]; [|done].
    intros Hp. rewrite (IH _ Hrest Hp). simpl.
    unfold ISR_UART_RECEIVE_INTERRUPT. by destruct (_ =? _).
Qed.

(** Puts that fit are queued whole, in call order, without waiting. *)
Lemma put_all_live cs : ∀ s,
  tx_size_ok → tx_ok s →
  tx_count s + Z.of_nat (length cs) ≤ UART_TX_BUFFER_SIZE - 1 →
  ∃ s1, put_all cs [] s = Returns ([], s1) ∧
        tx_live s1 = tx_live s ++ cs ∧ tx_ok s1 ∧ UDR (hw s1) = UDR (hw s).
Proof.
  induction cs as [|c cs IH]; intros s HC Hok Hfit.
  - exists s. simpl. by rewrite app_nil_r.
  - simpl in *.
    assert (¬ tx_full s) as Hnf by (rewrite tx_full_count by done; lia).
    destruct (put_live c [] s HC Hok Hnf) as (s' & Hp & Hl & Hc & Hok' & _).
    destruct (IH s' HC Hok') as (s1 & Hp1 & Hl1 & Hok1 & Hu1); [lia|].
    exists s1. rewrite Hp. split_and!; try done.
    + by rewrite Hl1, Hl, <- app_assoc.
    + rewrite Hu1. by apply (put_udr c [] s [] s').
Qed.

(** [n] transmit interrupts send the [n] oldest bytes, oldest first. *)
Lemma tx_drain_live n : ∀ s,
  tx_size_ok → tx_ok s → (n ≤ length (tx_live s))%nat →
  UDR (hw (tx_drain n s)) = UDR (hw s) ++ take n (tx_live s) ∧
  tx_live (tx_drain n s) = drop n (tx_live s) ∧
  tx_ok (tx_drain n s).
Proof.
  induction n as [|n IH]; intros s HC Hok Hn.
  - simpl. by rewrite app_nil_r, drop_0.
  - assert (UART_TxHead s ≠ UART_TxTail s) as Hne.
    { intros Heq. rewrite tx_live_length in Hn.
      unfold tx_count in Hn. rewrite Heq in Hn.
      unfold ring_count in Hn. rewrite Z.sub_diag, Zmod_0_l in Hn. simpl in Hn. lia. }
    destruct (tx_isr_live s HC Hok Hne) as (d & Hl & Hu & _ & Hok' & _).
    unfold tx_drain in *. rewrite Nat.iter_succ_r.
    destruct (IH (ISR_UART_TRANSMIT_INTERRUPT s) HC Hok') as (IH1 & IH2 & IH3).
    { rewrite Hl in Hn. simpl in Hn. lia. }
    rewrite Hl. simpl. rewrite IH1, Hu, <- app_assoc. done.
Qed.

End Queue.

(** * The claims *)

Section Claims.
Context {cfg : config}.

(** C2 (as amended).  [UART_FlushBuffer] discards the buffered receive
    bytes by setting the receive head equal to the receive tail: only
    the head index is modified; the tail index, both arrays, the
    transmit indices, the error code and the registers are unchanged,
    and no element is live afterwards. *)
Theorem UART_FlushBuffer_sets_head s :
  let s' := UART_FlushBuffer s in
  s' = set_RxHead (UART_RxTail s) s ∧
  UART_RxHead s' = UART_RxTail s ∧
  UART_RxTail s' = UART_RxTail s ∧
  UART_RxBuf s' = UART_RxBuf s ∧
  UART_TxBuf s' = UART_TxBuf s ∧
  UART_TxHead s' = UART_TxHead s ∧
  UART_TxTail s' = UART_TxTail s ∧
  UART_LastRxError s' = UART_LastRxError s ∧
  hw s' = hw s ∧
  rx_count s' = 0 ∧ rx_live s' = [].
Proof.
  simpl. split_and!; try done.
  - unfold rx_count, ring_count, UART_FlushBuffer; simpl.
    by rewrite Z.sub_diag, Zmod_0_l.
  - unfold rx_live, ring_live, ring_count, UART_FlushBuffer; simpl.
    by rewrite Z.sub_diag, Zmod_0_l.
Qed.

(** C3.  The receive interrupt, on a buffer of capacity C: when
    (RxHead+1) mod C equals RxTail the byte is dropped, head and buffer
    stay as they are and the error code becomes the buffer-overflow code,
    whatever the status flags were; otherwise the byte is stored at the
    advanced head, no other slot changes, and the error code becomes the
    framing/overrun flags of the status register.  Either way the old
    error code plays no part in the new one. *)
Theorem rx_isr_drop_or_store usr data s :
  rx_size_ok → byte usr →
  length (UART_RxBuf s) = Z.to_nat UART_RX_BUFFER_SIZE →
  let next := (UART_RxHead s + 1) mod UART_RX_BUFFER_SIZE in
  let flags := Z.land usr (Z.lor (Z.shiftl 1 FE) (Z.shiftl 1 DOR)) in
  let s' := ISR_UART_RECEIVE_INTERRUPT usr data s in
  (next = UART_RxTail s →
     s' = set_LastRxError (Z.shiftr UART_BUFFER_OVERFLOW 8) s ∧
     UART_RxHead s' = UART_RxHead s ∧
     UART_RxBuf s' = UART_RxBuf s ∧
     UART_LastRxError s' = Z.shiftr UART_BUFFER_OVERFLOW 8 ∧
     Z.shiftl (UART_LastRxError s') 8 = UART_BUFFER_OVERFLOW) ∧
  (next ≠ UART_RxTail s →
     s' = set_LastRxError flags
            (set_RxBuf (wr (UART_RxBuf s) next data) (set_RxHead next s)) ∧
     UART_RxHead s' = next ∧
     rd (UART_RxBuf s') next = data ∧
     (∀ i, 0 ≤ i → i ≠ next → rd (UART_RxBuf s') i = rd (UART_RxBuf s) i) ∧
     UART_LastRxError s' = flags) ∧
  (∀ e, UART_LastRxError (ISR_UART_RECEIVE_INTERRUPT usr data (set_LastRxError e s))
        = UART_LastRxError s').
Proof.
  intros HC Hu Hlen next flags s'.
  pose proof (size_ok_bounds _ HC) as HB.
  assert (0 ≤ next < UART_RX_BUFFER_SIZE) as Hnext by (apply mod_range; lia).
  assert (u8 flags = flags) as Hflags.
  { unfold u8, flags. apply Z.mod_small.
    rewrite Z.land_comm.
    pose proof (land_mask_range (Z.lor (Z.shiftl 1 FE) (Z.shiftl 1 DOR)) usr).
    unfold byte in Hu. lia. }
  split_and!.
  - intros Hfull. subst s'. rewrite rx_isr_full by done. done.
  - intros Hnf. subst s'. rewrite rx_isr_store by done.
    fold next flags. rewrite Hflags. simpl. split_and!; try done.
    + apply rd_wr_eq; lia.
    + intros i Hi Hne. apply rd_wr_ne; lia.
  - intros e. subst s'. unfold ISR_UART_RECEIVE_INTERRUPT. simpl.
    by destruct (_ =? _).
Qed.

(** C5.  [UART_CharGetNonBlocking] on an empty receive buffer returns
    [UART_NO_DATA] and changes nothing; on a non-empty one it advances
    RxTail to (RxTail+1) mod C and returns the last error code in the high
    byte and the byte at the new tail in the low byte.  Returning
    [UART_NO_DATA] with the state unchanged happens exactly when
    RxHead = RxTail; in a reachable state, on a device whose error flags
    are not bit 0 of the status register, the returned value alone is
    [UART_NO_DATA] exactly when RxHead = RxTail. *)
Theorem UART_CharGetNonBlocking_spec s :
  rx_size_ok → bytes_ok s →
  let next := (UART_RxTail s + 1) mod UART_RX_BUFFER_SIZE in
  let r := (UART_CharGetNonBlocking s).1 in
  let s' := (UART_CharGetNonBlocking s).2 in
  (UART_RxHead s = UART_RxTail s → r = UART_NO_DATA ∧ s' = s) ∧
  (UART_RxHead s ≠ UART_RxTail s →
     s' = set_RxTail next s ∧
     UART_RxTail s' = next ∧
     r = 256 * UART_LastRxError s + rd (UART_RxBuf s) next ∧
     r / 256 = UART_LastRxError s ∧
     r mod 256 = rd (UART_RxBuf s) next) ∧
  ((r = UART_NO_DATA ∧ s' = s) ↔ UART_RxHead s = UART_RxTail s) ∧
  (flags_ok → reachable s → (r = UART_NO_DATA ↔ UART_RxHead s = UART_RxTail s)).
Proof.
  intros HC (Hrx & _ & He) next r s'.
  pose proof (size_ok_bounds _ HC) as HB.
  pose proof (rd_byte (UART_RxBuf s) next Hrx) as Hd.
  destruct (composite_bytes _ _ He Hd) as (Hval & Hhi & Hlo).
  assert (UART_RxHead s ≠ UART_RxTail s →
          r = u16 (Z.shiftl (UART_LastRxError s) 8 + rd (UART_RxBuf s) next) ∧
          s' = set_RxTail next s) as Htake.
  { intros Hne. subst r s'. by rewrite get_take. }
  split_and!.
  - intros Heq. subst r s'. by rewrite get_empty.
  - intros Hne. destruct (Htake Hne) as [-> ->]. done.
  - split.
    + intros [_ Hs]. destruct (decide (UART_RxHead s = UART_RxTail s)) as [|Hne]; [done|].
      destruct (Htake Hne) as [_ Hs']. rewrite Hs' in Hs.
      apply (f_equal UART_RxTail) in Hs. simpl in Hs.
      by apply next_ne in Hs; [|lia].
    + intros Heq. subst r s'. by rewrite get_empty.
  - intros Hf Hreach. split.
    + intros Hr. destruct (decide (UART_RxHead s = UART_RxTail s)) as [|Hne]; [done|].
      destruct (Htake Hne) as [Hr' _]. rewrite Hr', Hval in Hr.
      pose proof (reachable_err_ok s Hf Hreach) as Heven. unfold err_ok in Heven.
      unfold UART_NO_DATA, byte in *.
      assert (UART_LastRxError s = 1) as H1 by lia.
      rewrite H1 in Heven. done.
    + intros Heq. subst r. by rewrite get_empty.
Qed.

(** C7.  After [UART_FlushBuffer], on any state, [UART_CharsAvail]
    returns 0 and [UART_CharGetNonBlocking] returns [UART_NO_DATA] and
    leaves the state as it is. *)
Theorem flush_then_nothing_available s :
  2 ≤ UART_RX_BUFFER_SIZE →
  let s' := UART_FlushBuffer s in
  UART_CharsAvail s' = 0 ∧
  UART_CharGetNonBlocking s' = (UART_NO_DATA, s').
Proof.
  intros HC s'. split.
  - unfold UART_CharsAvail, UART_RX_BUFFER_MASK. subst s'. simpl.
    replace (UART_RX_BUFFER_SIZE - 1 + UART_RxTail s - UART_RxTail s)
      with (UART_RX_BUFFER_SIZE - 1) by lia.
    apply Z.rem_same. lia.
  - by apply get_empty.
Qed.

(** C8.  The transmit interrupt: with TxHead ≠ TxTail it advances TxTail
    to (TxTail+1) mod C and writes the byte at the new tail to the data
    register, leaving the control register alone; with TxHead = TxTail
    it clears the UDRIE bit of the control register and nothing else:
    indices, buffer and data register stay as they are. *)
Theorem tx_isr_send_or_disable s :
  tx_size_ok → udrie_ok → byte (UCSRB (hw s)) →
  let next := (UART_TxTail s + 1) mod UART_TX_BUFFER_SIZE in
  let s' := ISR_UART_TRANSMIT_INTERRUPT s in
  (UART_TxHead s ≠ UART_TxTail s →
     s' = set_hw (write_UDR (rd (UART_TxBuf s) next)) (set_TxTail next s) ∧
     UART_TxTail s' = next ∧
     UART_TxHead s' = UART_TxHead s ∧
     UDR (hw s') = UDR (hw s) ++ [rd (UART_TxBuf s) next] ∧
     UCSRB (hw s') = UCSRB (hw s)) ∧
  (UART_TxHead s = UART_TxTail s →
     s' = set_hw (set_UCSRB (Z.land (UCSRB (hw s)) (Z.lnot (Z.shiftl 1 UART_UDRIE)))) s ∧
     UART_TxHead s' = UART_TxHead s ∧
     UART_TxTail s' = UART_TxTail s ∧
     UART_TxBuf s' = UART_TxBuf s ∧
     UDR (hw s') = UDR (hw s) ∧
     Z.testbit (UCSRB (hw s')) UART_UDRIE = false ∧
     (∀ n, 0 ≤ n → n ≠ UART_UDRIE →
        Z.testbit (UCSRB (hw s')) n = Z.testbit (UCSRB (hw s)) n)).
Proof.
  intros HC Hbit Hb next s'. split.
  - intros Hne. subst s'. rewrite tx_isr_send by done. done.
  - intros Heq. subst s'. rewrite tx_isr_idle by done.
    assert (u8 (Z.land (UCSRB (hw s)) (Z.lnot (Z.shiftl 1 UART_UDRIE)))
            = Z.land (UCSRB (hw s)) (Z.lnot (Z.shiftl 1 UART_UDRIE))) as Hu.
    { unfold u8. apply Z.mod_small. rewrite Z.land_comm.
      pose proof (land_mask_range (Z.lnot (Z.shiftl 1 UART_UDRIE)) (UCSRB (hw s))).
      unfold byte in Hb. lia. }
    unfold udrie_ok in Hbit. unfold set_hw. cbv beta. rewrite Hu.
    simpl. split_and!; try done.
    + rewrite Z.land_spec, Z.lnot_spec, testbit_bit by lia.
      rewrite Z.eqb_refl. apply andb_false_r.
    + intros n Hn Hne. rewrite Z.land_spec, Z.lnot_spec, testbit_bit by lia.
      destruct (Z.eqb_spec n UART_UDRIE); [done|]. apply andb_true_r.
Qed.

(** C4.  Starting from an empty receive buffer of capacity C, N ≤ C-1
    receive interrupts followed by N gets: every byte is queued, the gets
    return the bytes in arrival order (low byte of each result; the high
    byte is the error code recorded last), and the buffer is empty
    again. *)
Theorem rx_fifo arrivals s :
  rx_size_ok → rx_ok s → UART_RxHead s = UART_RxTail s →
  Z.of_nat (length arrivals) ≤ UART_RX_BUFFER_SIZE - 1 →
  Forall byte arrivals.*2 →
  let n := length arrivals in
  let s1 := rx_all arrivals s in
  let outs := (get_n n s1).1 in
  let s2 := (get_n n s1).2 in
  rx_live s1 = arrivals.*2 ∧
  outs = (λ d, u16 (Z.shiftl (UART_LastRxError s1) 8 + d)) <$> arrivals.*2 ∧
  (λ r, r mod 256) <$> outs = arrivals.*2 ∧
  rx_live s2 = [] ∧ UART_RxHead s2 = UART_RxTail s2.
Proof.
  intros HC Hok Hempty Hfit Hbytes n s1 outs s2.
  assert (rx_count s = 0) as Hc0.
  { unfold rx_count, ring_count. by rewrite Hempty, Z.sub_diag, Zmod_0_l. }
  assert (rx_live s = []) as Hl0.
  { apply length_zero_iff_nil. rewrite rx_live_length, Hc0. done. }
  destruct (rx_all_live arrivals s HC Hok) as [Hl1 Hok1]; [lia|].
  rewrite Hl0 in Hl1. simpl in Hl1. fold s1 in Hl1, Hok1.
  assert (length (rx_live s1) = n) as Hlen.
  { rewrite Hl1. by rewrite length_fmap. }
  destruct (get_n_live n s1 HC Hok1) as (Ho & Hl2 & Hok2); [lia|].
  fold outs in Ho. fold s2 in Hl2, Hok2.
  rewrite <- Hlen, firstn_all in Ho. rewrite <- Hlen, drop_all in Hl2.
  rewrite Hl1 in Ho.
  split_and!; try done.
  - rewrite Ho, <- list_fmap_compose.
    rewrite <- (list_fmap_id (arrivals.*2)) at 2.
    apply Forall_fmap_ext_1. revert Hbytes. apply Forall_impl.
    intros d Hd. simpl. by apply composite_low.
  - pose proof (size_ok_bounds _ HC) as HB.
    destruct Hok2 as (Hh & Ht & _).
    apply (ring_count_empty UART_RX_BUFFER_SIZE); try done; [lia|].
    pose proof (rx_live_length s2) as Hlen2. rewrite Hl2 in Hlen2. simpl in Hlen2.
    pose proof (rx_count_range s2 HC). unfold rx_count in *. lia.
Qed.

(** X7.  The transmit ring is a queue in the same way: from an empty buffer,
    N ≤ C-1 puts return without waiting, and N transmit interrupts then
    write the bytes to the data register in the order they were put. *)
Theorem tx_fifo cs s :
  tx_size_ok → tx_ok s → UART_TxHead s = UART_TxTail s →
  Z.of_nat (length cs) ≤ UART_TX_BUFFER_SIZE - 1 →
  ∃ s1, put_all cs [] s = Returns ([], s1) ∧
        tx_live s1 = cs ∧
        UDR (hw (tx_drain (length cs) s1)) = UDR (hw s) ++ cs ∧
        tx_live (tx_drain (length cs) s1) = [].
Proof.
  intros HC Hok Hempty Hfit.
  assert (tx_count s = 0) as Hc0.
  { unfold tx_count, ring_count. by rewrite Hempty, Z.sub_diag, Zmod_0_l. }
  assert (tx_live s = []) as Hl0.
  { apply length_zero_iff_nil. rewrite tx_live_length, Hc0. done. }
  destruct (put_all_live cs s HC Hok) as (s1 & Hp & Hl1 & Hok1 & Hu1); [lia|].
  rewrite Hl0 in Hl1. simpl in Hl1.
  destruct (tx_drain_live (length cs) s1 HC Hok1) as (Hu & Hl2 & _).
  { by rewrite Hl1. }
  exists s1. rewrite Hl1 in Hu, Hl2.
  rewrite firstn_all in Hu. rewrite drop_all in Hl2.
  rewrite Hu1 in Hu. done.
Qed.

(** C6.  In every reachable state each ring holds at most C-1 live
    elements.  The receive interrupt on a full ring leaves head and queue
    as they are; on a ring with room it adds exactly one element.  The
    put on a ring with room adds exactly one element; on a full ring it
    spins through every schedule without a transmit interrupt, and
    stores its byte only after the first transmit interrupt of the
    schedule has taken one element out. *)
Theorem ring_never_overfull :
  rx_size_ok → tx_size_ok →
  (∀ s, reachable s →
     rx_ok s ∧ tx_ok s ∧
     0 ≤ rx_count s ≤ UART_RX_BUFFER_SIZE - 1 ∧
     length (rx_live s) = Z.to_nat (rx_count s) ∧
     0 ≤ tx_count s ≤ UART_TX_BUFFER_SIZE - 1 ∧
     length (tx_live s) = Z.to_nat (tx_count s)) ∧
  (∀ usr data s, rx_ok s →
     let s' := ISR_UART_RECEIVE_INTERRUPT usr data s in
     (rx_full s →
        rx_count s = UART_RX_BUFFER_SIZE - 1 ∧
        UART_RxHead s' = UART_RxHead s ∧
        rx_count s' = rx_count s ∧ rx_live s' = rx_live s) ∧
     (¬ rx_full s →
        rx_count s < UART_RX_BUFFER_SIZE - 1 ∧
        rx_count s' = rx_count s + 1 ∧ rx_live s' = rx_live s ++ [data])) ∧
  (∀ data irqs s, tx_ok s →
     (¬ tx_full s →
        tx_count s < UART_TX_BUFFER_SIZE - 1 ∧
        ∃ s', UART_CharPutNonBlocking data irqs s = Returns (irqs, s') ∧
              tx_count s' = tx_count s + 1 ∧ tx_live s' = tx_live s ++ [data]) ∧
     (tx_full s →
        tx_count s = UART_TX_BUFFER_SIZE - 1 ∧
        (Forall (λ i, i ≠ UDRE) irqs →
           UART_CharPutNonBlocking data irqs s = Spins) ∧
        (∀ pre post,
           irqs = pre ++ UDRE :: post → Forall (λ i, i ≠ UDRE) pre →
           tx_count (run_irqs (pre ++ [UDRE]) s) = UART_TX_BUFFER_SIZE - 2 ∧
           ∃ s', UART_CharPutNonBlocking data irqs s = Returns (post, s') ∧
                 tx_count s' = UART_TX_BUFFER_SIZE - 1 ∧
                 tx_live s' = drop 1 (tx_live s) ++ [data]))).
Proof.
  intros HRX HTX.
  pose proof (size_ok_bounds _ HRX) as HBR.
  pose proof (size_ok_bounds _ HTX) as HBT.
  split_and!.
  - intros s Hs.
    assert (idx_ok s) as Hidx by (apply reachable_idx_ok; [split; lia|done]).
    destruct (reachable_store_ok s Hs) as [Hbufs _].
    destruct (rings_ok s Hidx Hbufs) as [Hr Ht].
    pose proof (ring_count_range UART_RX_BUFFER_SIZE (UART_RxHead s) (UART_RxTail s)).
    pose proof (ring_count_range UART_TX_BUFFER_SIZE (UART_TxHead s) (UART_TxTail s)).
    unfold rx_live, tx_live, rx_count, tx_count.
    rewrite !ring_live_length. split_and!; try done; lia.
  - intros usr data s Hok s'. split.
    + intros Hfull.
      destruct (rx_isr_live_full usr data s HRX Hfull) as (? & ? & ? & ?).
      split_and!; try done. by apply rx_full_count.
    + intros Hnf.
      destruct (rx_isr_live usr data s HRX Hok Hnf) as (? & ? & ? & ?).
      split_and!; try done.
      pose proof (rx_count_range s HRX).
      assert (rx_count s ≠ UART_RX_BUFFER_SIZE - 1) by (by rewrite <- rx_full_count).
      lia.
  - intros data irqs s Hok. split.
    + intros Hnf.
      destruct (put_live data irqs s HTX Hok Hnf) as (s' & ? & ? & ? & ? & ?).
      split; [|by exists s'].
      pose proof (ring_count_range UART_TX_BUFFER_SIZE (UART_TxHead s) (UART_TxTail s)).
      assert (tx_count s ≠ UART_TX_BUFFER_SIZE - 1) by (by rewrite <- tx_full_count).
      unfold tx_count in *. lia.
    + intros Hfull.
      assert (tx_count s = UART_TX_BUFFER_SIZE - 1) as Hcnt by (by apply tx_full_count).
      split_and!; [done|by apply put_full_no_udre|].
      intros pre post -> Hpre.
      rewrite put_full_until_udre by done.
      unfold run_irqs. rewrite foldl_app. simpl. fold (run_irqs pre s).
      destruct (run_irqs_tx_frame pre s Hpre) as (Hb & Hh & Ht).
      set (s0 := run_irqs pre s) in *.
      assert (tx_ok s0) as Hok0 by (unfold tx_ok in *; by rewrite Hb, Hh, Ht).
      assert (tx_count s0 = tx_count s) as Hc0 by (unfold tx_count; by rewrite Hh, Ht).
      assert (tx_live s0 = tx_live s) as Hl0 by (unfold tx_live; by rewrite Hb, Hh, Ht).
      assert (UART_TxHead s0 ≠ UART_TxTail s0) as Hne.
      { rewrite Hh, Ht. unfold tx_full, ring_full in Hfull. intros Heq.
        rewrite Heq in Hfull. by apply next_ne in Hfull; [|lia]. }
      destruct (tx_isr_live s0 HTX Hok0 Hne) as (d & Hl1 & _ & Hc1 & Hok1 & _).
      set (s1 := ISR_UART_TRANSMIT_INTERRUPT s0) in *.
      assert (¬ tx_full s1) as Hnf1 by (rewrite tx_full_count by done; lia).
      destruct (put_live data post s1 HTX Hok1 Hnf1) as (s' & Hp & Hl' & Hc' & _ & _).
      split; [lia|]. exists s'. split_and!; [done|lia|].
      rewrite Hl', <- Hl0, Hl1. done.
Qed.

Lemma idx_ok_wait tmphead irqs : ∀ s irqs' s',
  sizes_pos → idx_ok s →
  wait_for_space tmphead irqs s = Returns (irqs', s') → idx_ok s'.
Proof.
  induction irqs as [|i irqs IH]; intros s irqs' s' Hpos Hs; simpl.
  - destruct (tmphead =? UART_TxTail s); [done|]. by intros [= <- <-].
  - destruct (tmphead =? UART_TxTail s); [|by intros [= <- <-]].
    apply IH; [done|].
    destruct i; simpl; [by apply idx_ok_rx|by apply idx_ok_tx].
Qed.

Lemma idx_ok_put data irqs s irqs' s' :
  sizes_pos → idx_ok s →
  UART_CharPutNonBlocking data irqs s = Returns (irqs', s') → idx_ok s'.
Proof.
  intros Hpos Hs. unfold UART_CharPutNonBlocking.
  destruct (wait_for_space _ irqs s) as [[irqs1 s1]| |] eqn:Hw; [|done..].
  apply idx_ok_wait in Hw; [|done..].
  intros [= <- <-]. by apply idx_ok_store.
Qed.

Lemma idx_ok_puts str : ∀ irqs s irqs' s',
  sizes_pos → idx_ok s →
  UART_StringPutNonBlocking str irqs s = Returns (irqs', s') → idx_ok s'.
Proof.
  induction str as [|c str IH]; intros irqs s irqs' s' Hpos Hs; simpl; [done|].
  destruct (c =? 0); [by intros [= <- <-]|].
  destruct (UART_CharPutNonBlocking _ irqs s) as [[irqs1 s1]| |] eqn:Hp; [|done..].
  apply idx_ok_put in Hp; [|done..]. by apply IH.
Qed.

(** C9.  With buffer sizes of at least 1, [UART_Init] puts the four
    indices inside their buffers, and the two interrupt handlers,
    [UART_CharGetNonBlocking], [UART_CharPutNonBlocking] (whenever it
    returns), [UART_StringPutNonBlocking] (whenever it returns) and
    [UART_FlushBuffer] keep them there; so they are inside in every
    reachable state. *)
Theorem indices_stay_in_range :
  sizes_pos →
  (∀ baudrate s, idx_ok (UART_Init baudrate s)) ∧
  (∀ s, idx_ok s →
     (∀ usr data, idx_ok (ISR_UART_RECEIVE_INTERRUPT usr data s)) ∧
     idx_ok (ISR_UART_TRANSMIT_INTERRUPT s) ∧
     idx_ok (UART_CharGetNonBlocking s).2 ∧
     (∀ data irqs irqs' s',
        UART_CharPutNonBlocking data irqs s = Returns (irqs', s') → idx_ok s') ∧
     (∀ str irqs irqs' s',
        UART_StringPutNonBlocking str irqs s = Returns (irqs', s') → idx_ok s') ∧
     idx_ok (UART_FlushBuffer s)) ∧
  (∀ s, reachable s → idx_ok s).
Proof.
  intros Hpos. split_and!.
  - intros. by apply idx_ok_init.
  - intros s Hs. split_and!.
    + intros. by apply idx_ok_rx.
    + by apply idx_ok_tx.
    + by apply idx_ok_get.
    + intros data irqs irqs' s'. by apply idx_ok_put.
    + intros str irqs irqs' s'. by apply idx_ok_puts.
    + by apply idx_ok_flush.
  - intros s. by apply reachable_idx_ok.
Qed.

(** C10.  [UART_StringPutNonBlocking] on a string whose first element is
    the terminator returns at once, with the state (buffers, indices,
    registers) and the schedule as they were; on a string with the
    non-zero characters [cs] before its terminator it is
    [UART_CharPutNonBlocking] applied to each of them, first to last. *)
Theorem UART_StringPutNonBlocking_spec :
  (∀ rest irqs s,
     UART_StringPutNonBlocking (0 :: rest) irqs s = Returns (irqs, s)) ∧
  (∀ cs rest irqs s,
     Forall (λ c, c ≠ 0) cs →
     UART_StringPutNonBlocking (cs ++ 0 :: rest) irqs s
     = put_all (u8 <$> cs) irqs s).
Proof.
  split; [done|].
  induction cs as [|c cs IH]; intros rest irqs s Hnz; [done|].
  inversion Hnz as [|? ? Hc Hcs]; subst. simpl.
  destruct (Z.eqb_spec c 0); [done|].
  destruct (UART_CharPutNonBlocking (u8 c) irqs s) as [[irqs1 s1]| |]; [|done..].
  by apply IH.
Qed.

End Claims.

(** * The claims at concrete states *)

(** Closed decidable facts, by evaluation. *)
Ltac by_compute := apply (bool_decide_unpack _); by vm_compute.

Lemma cfg32_rx_size_ok : rx_size_ok (cfg := cfg32).
Proof. exists 5. split; [lia|reflexivity]. Defined.

Lemma cfg32_tx_size_ok : tx_size_ok (cfg := cfg32).
Proof. exists 5. split; [lia|reflexivity]. Defined.

Lemma cfg4_rx_size_ok : rx_size_ok (cfg := cfg4).
Proof. exists 2. split; [lia|reflexivity]. Defined.

Lemma cfg4_tx_size_ok : tx_size_ok (cfg := cfg4).
Proof. exists 2. split; [lia|reflexivity]. Defined.

Lemma s_init32_reachable : reachable (cfg := cfg32) s_init32.
Proof. apply reachable_init; [lia|]. apply reachable_power_on. Qed.

Lemma arrive_bytes l : Forall byte l → Forall (λ a : Z * Z, byte a.1 ∧ byte a.2) (arrive l).
Proof.
  intros Hl. unfold arrive. apply Forall_fmap. revert Hl. apply Forall_impl.
  intros d Hd. simpl. split; [unfold byte; lia|done].
Qed.

Lemma s_full32_reachable : reachable (cfg := cfg32) s_full32.
Proof.
  apply reachable_rx_all; [|apply s_init32_reachable].
  apply arrive_bytes. unfold bytes_upto. apply Forall_seqZ. unfold byte. lia.
Qed.

(** C1.  The receive buffer of the default size 32, after initialisation
    and 31 bytes received and not read, is reachable and holds 31 live
    bytes: (RxHead - RxTail) mod 32 = 31.  [UART_CharsAvail] returns 0
    there.  After the 31 bytes are read and one more arrives, one byte is
    buffered and [UART_CharsAvail] returns 0 again. *)
Theorem UART_CharsAvail_miscounts :
  reachable (cfg := cfg32) s_full32 ∧
  rx_live (cfg := cfg32) s_full32 = bytes_upto 31 ∧
  (UART_RxHead s_full32 - UART_RxTail s_full32) mod UART_RX_BUFFER_SIZE (config := cfg32) = 31 ∧
  UART_CharsAvail (cfg := cfg32) s_full32 = 0 ∧
  rx_live (cfg := cfg32) s_wrap32 = [65] ∧
  (UART_RxHead s_wrap32 - UART_RxTail s_wrap32) mod UART_RX_BUFFER_SIZE (config := cfg32) = 1 ∧
  UART_CharsAvail (cfg := cfg32) s_wrap32 = 0.
Proof. split; [apply s_full32_reachable|]. by vm_compute. Qed.

(** C2 as stated fails: with two bytes buffered (RxHead = 2, RxTail = 0)
    [UART_FlushBuffer] leaves the tail at 0, not at the old head, and moves
    the head. *)
Lemma UART_FlushBuffer_tail_counterexample :
  reachable (cfg := cfg32) s_two32 ∧
  UART_RxTail (UART_FlushBuffer s_two32) ≠ UART_RxHead s_two32 ∧
  UART_RxHead (UART_FlushBuffer s_two32) ≠ UART_RxHead s_two32.
Proof.
  split_and!.
  - apply reachable_rx_all; [|apply s_init32_reachable].
    apply arrive_bytes. repeat constructor; unfold byte; lia.
  - vm_compute. discriminate.
  - vm_compute. discriminate.
Qed.

(** C3 on the full buffer of size 32, with a framing error flagged: the
    byte is dropped and the overflow code recorded; and on the buffer with
    two bytes: the byte is stored in slot 3 under the framing flag. *)
Lemma rx_isr_drop_or_store_witness :
  (let s' := ISR_UART_RECEIVE_INTERRUPT (cfg := cfg32) 16 65 s_full32 in
   UART_RxHead s' = 31 ∧ UART_RxBuf s' = UART_RxBuf s_full32 ∧ UART_LastRxError s' = 2) ∧
  (let s' := ISR_UART_RECEIVE_INTERRUPT (cfg := cfg32) 16 67 s_two32 in
   UART_RxHead s' = 3 ∧ rd (UART_RxBuf s') 3 = 67 ∧ UART_LastRxError s' = 16).
Proof.
  split.
  - destruct (rx_isr_drop_or_store (cfg := cfg32) 16 65 s_full32) as (Hdrop & _ & _).
    + exact cfg32_rx_size_ok.
    + unfold byte. lia.
    + reflexivity.
    + destruct Hdrop as (_ & Hh & Hb & He & _); [reflexivity|].
      split_and!; [exact Hh|exact Hb|exact He].
  - destruct (rx_isr_drop_or_store (cfg := cfg32) 16 67 s_two32) as (_ & Hstore & _).
    + exact cfg32_rx_size_ok.
    + unfold byte. lia.
    + reflexivity.
    + destruct Hstore as (_ & Hh & Hd & _ & He); [by vm_compute|].
      split_and!; [exact Hh|exact Hd|exact He].
Defined.

(** C4 at capacity 4: 'A', 'B', 'C' arrive and are read back in that
    order. *)
Lemma rx_fifo_witness :
  (get_n (cfg := cfg4) 3 (rx_all (cfg := cfg4) (arrive [65; 66; 67]) s_init4)).1
  = [65; 66; 67].
Proof.
  destruct (rx_fifo (cfg := cfg4) (arrive [65; 66; 67]) s_init4) as (_ & Ho & _).
  - exact cfg4_rx_size_ok.
  - unfold rx_ok. by_compute.
  - reflexivity.
  - simpl. lia.
  - simpl. repeat constructor; unfold byte; lia.
  - exact Ho.
Defined.

(** C5 on the buffer holding 'A' and 'B': the get returns 'A' with error
    code 0 and moves the tail to slot 1. *)
Lemma UART_CharGetNonBlocking_spec_witness :
  (UART_CharGetNonBlocking (cfg := cfg32) s_two32).1 = 65 ∧
  UART_RxTail (UART_CharGetNonBlocking (cfg := cfg32) s_two32).2 = 1.
Proof.
  destruct (UART_CharGetNonBlocking_spec (cfg := cfg32) s_two32)
    as (_ & Htake & _).
  - exact cfg32_rx_size_ok.
  - unfold bytes_ok, byte. by_compute.
  - destruct Htake as (_ & Ht & Hr & _); [by vm_compute|].
    split; [exact Hr|exact Ht].
Defined.

(** C6 at capacity 4 with 'A', 'B', 'C' in the transmit buffer: a fourth
    put spins while only a receive interrupt arrives, and once a transmit
    interrupt has sent 'A' it stores 'D'; the buffer then holds 'B', 'C',
    'D'. *)
Lemma ring_never_overfull_witness :
  tx_count (cfg := cfg4) s_txfull4 = 3 ∧
  UART_CharPutNonBlocking (cfg := cfg4) 68 [RXC 0 1] s_txfull4 = Spins ∧
  ∃ s', UART_CharPutNonBlocking (cfg := cfg4) 68 [RXC 0 1; UDRE] s_txfull4
        = Returns ([], s') ∧
        tx_count (cfg := cfg4) s' = 3 ∧ tx_live (cfg := cfg4) s' = [66; 67; 68].
Proof.
  destruct (ring_never_overfull (cfg := cfg4) cfg4_rx_size_ok cfg4_tx_size_ok)
    as (_ & _ & Hput).
  split; [reflexivity|]. split.
  - destruct (Hput 68 [RXC 0 1] s_txfull4) as (_ & Hfull).
    + unfold tx_ok. by_compute.
    + destruct Hfull as (_ & Hspin & _); [reflexivity|].
      apply Hspin. repeat constructor; discriminate.
  - destruct (Hput 68 [RXC 0 1; UDRE] s_txfull4) as (_ & Hfull).
    + unfold tx_ok. by_compute.
    + destruct Hfull as (_ & _ & Hgo); [reflexivity|].
      destruct (Hgo [RXC 0 1] []) as (_ & s' & Hp & Hc & Hl).
      * reflexivity.
      * repeat constructor; discriminate.
      * exists s'. split_and!; [exact Hp|exact Hc|exact Hl].
Defined.

(** C7 on the buffer holding two bytes. *)
Lemma flush_then_nothing_available_witness :
  UART_CharsAvail (cfg := cfg32) (UART_FlushBuffer s_two32) = 0 ∧
  (UART_CharGetNonBlocking (cfg := cfg32) (UART_FlushBuffer s_two32)).1 = UART_NO_DATA.
Proof.
  destruct (flush_then_nothing_available (cfg := cfg32) s_two32) as [Ha Hg].
  - simpl. lia.
  - split; [exact Ha|]. rewrite Hg. reflexivity.
Defined.

(** C8 at capacity 4: with three bytes waiting the handler sends 'A' and
    moves the tail to slot 1; with nothing waiting it clears bit 5 of the
    control register. *)
Lemma tx_isr_send_or_disable_witness :
  (let s' := ISR_UART_TRANSMIT_INTERRUPT (cfg := cfg4) s_txfull4 in
   UART_TxTail s' = 1 ∧ UDR (hw s') = [65]) ∧
  (let s' := ISR_UART_TRANSMIT_INTERRUPT (cfg := cfg4) s_init4 in
   UART_TxTail s' = 0 ∧ Z.testbit (UCSRB (hw s')) 5 = false).
Proof.
  split.
  - destruct (tx_isr_send_or_disable (cfg := cfg4) s_txfull4) as (Hsend & _).
    + exact cfg4_tx_size_ok.
    + unfold udrie_ok. by_compute.
    + unfold byte. by_compute.
    + destruct Hsend as (_ & Ht & _ & Hu & _); [by vm_compute|].
      split; [exact Ht|exact Hu].
  - destruct (tx_isr_send_or_disable (cfg := cfg4) s_init4) as (_ & Hidle).
    + exact cfg4_tx_size_ok.
    + unfold udrie_ok. by_compute.
    + unfold byte. by_compute.
    + destruct Hidle as (_ & _ & Ht & _ & _ & Hb & _); [reflexivity|].
      split; [exact Ht|exact Hb].
Defined.

(** C9 at the default sizes, on the buffer holding two bytes. *)
Lemma indices_stay_in_range_witness :
  idx_ok (cfg := cfg32) (UART_Init (cfg := cfg32) 51 s_two32) ∧
  idx_ok (cfg := cfg32) (ISR_UART_RECEIVE_INTERRUPT (cfg := cfg32) 0 67 s_two32) ∧
  idx_ok (cfg := cfg32) (UART_FlushBuffer s_two32).
Proof.
  destruct (indices_stay_in_range (cfg := cfg32)) as (Hinit & Hops & _).
  - unfold sizes_pos. simpl. lia.
  - destruct (Hops s_two32) as (Hrx & _ & _ & _ & _ & Hfl).
    + unfold idx_ok. by_compute.
    + split_and!; [apply Hinit|apply Hrx|exact Hfl].
Defined.

(** C10 at capacity 4: the string "Hi" is put as 'H', then 'i'; the empty
    string changes nothing. *)
Lemma UART_StringPutNonBlocking_spec_witness :
  UART_StringPutNonBlocking (cfg := cfg4) [0] [] s_init4 = Returns ([], s_init4) ∧
  UART_StringPutNonBlocking (cfg := cfg4) [72; 105; 0] [] s_init4
  = put_all (cfg := cfg4) [72; 105] [] s_init4.
Proof.
  destruct (UART_StringPutNonBlocking_spec (cfg := cfg4)) as [Hnil Hstr].
  split; [apply Hnil|].
  apply (Hstr [72; 105] []). repeat constructor; discriminate.
Defined.

(** Five bytes received into a buffer of capacity 4 with no read in
    between: the first three are queued, the last two are dropped, the
    overflow code is recorded, and the next get returns the first byte
    under that code. *)
Example rx_overflow_scenario :
  let s := rx_all (cfg := cfg4) (arrive [65; 66; 67; 68; 69]) s_init4 in
  rx_live (cfg := cfg4) s = [65; 66; 67] ∧
  UART_LastRxError s = Z.shiftr UART_BUFFER_OVERFLOW 8 ∧
  (UART_CharGetNonBlocking (cfg := cfg4) s).1 = UART_BUFFER_OVERFLOW + 65.
Proof. by vm_compute. Qed.

(** Capacity 4: 'A', 'B', 'C' are put without waiting, and three transmit
    interrupts send them in that order. *)
Example tx_fifo_scenario :
  ∃ s1, put_all (cfg := cfg4) [65; 66; 67] [] s_init4 = Returns ([], s1) ∧
        UDR (hw (tx_drain (cfg := cfg4) 3 s1)) = [65; 66; 67].
Proof.
  destruct (tx_fifo (cfg := cfg4) [65; 66; 67] s_init4) as (s1 & Hp & _ & Hu & _).
  - exact cfg4_tx_size_ok.
  - unfold tx_ok. by_compute.
  - reflexivity.
  - simpl. lia.
  - exists s1. split; [exact Hp|exact Hu].
Defined.

(** * Beyond the claims *)

(** ** Initialisation *)

Section Init.
Context {cfg : config}.

Lemma land_pow2 a n : 0 ≤ n → Z.land a (2 ^ n) = if Z.testbit a n then 2 ^ n else 0.
Proof.
  intros Hn. apply Z.bits_inj'. intros m Hm.
  rewrite Z.land_spec, Z.pow2_bits_eqb by done.
  destruct (Z.eqb_spec n m) as [->|Hne].
  - destruct (Z.testbit a m) eqn:Ha; simpl.
    + by rewrite Z.pow2_bits_true.
    + by rewrite Z.bits_0.
  - rewrite andb_false_r. destruct (Z.testbit a n).
    + by rewrite Z.pow2_bits_false.
    + by rewrite Z.bits_0.
Qed.

Lemma testbit_15 b : 0 ≤ b < 65536 → Z.testbit b 15 = (32768 <=? b).
Proof.
  intros Hb. rewrite Z.testbit_odd, Z.shiftr_div_pow2 by lia.
  change (2 ^ 15) with 32768.
  destruct (Z.leb_spec 32768 b).
  - assert (b / 32768 = 1) as -> by (symmetry; apply (Z.div_unique b 32768 1 (b - 32768)); lia).
    done.
  - by rewrite Z.div_small by lia.
Qed.

(** Clearing bit 15 of an [unsigned int]. *)
Lemma clear_bit_15 b :
  0 ≤ b < 65536 →
  Z.land b (Z.lnot 32768) = if 32768 <=? b then b - 32768 else b.
Proof.
  intros Hb. rewrite <- Z.ldiff_land.
  assert (Z.land (Z.ldiff b 32768) (Z.land b 32768) = 0) as Hdisj.
  { rewrite (Z.land_comm b), Z.land_assoc, Z.land_ldiff. apply Z.land_0_l. }
  assert (b = Z.ldiff b 32768 + Z.land b 32768) as Hsum.
  { rewrite Z.add_nocarry_lxor, Z.lxor_lor by done. by rewrite Z.lor_ldiff_and. }
  pose proof (land_pow2 b 15 ltac:(lia)) as Hl. change (2 ^ 15) with 32768 in Hl.
  rewrite testbit_15 in Hl by done.
  destruct (32768 <=? b); lia.
Qed.

(** The registers [UART_Init] loads the divisor into. *)
Lemma UART_Init_divisor baudrate s :
  0 ≤ baudrate < 65536 →
  let s' := UART_Init baudrate s in
  let d := baudrate mod 32768 in
  UBRRH (hw s') = d / 256 ∧ UBRRL (hw s') = d mod 256 ∧
  UCSRA (hw s') = if 32768 <=? baudrate then u8 (Z.shiftl 1 U2X) else UCSRA (hw s).
Proof.
  intros Hb. simpl. unfold UART_Init.
  pose proof (land_pow2 baudrate 15 ltac:(lia)) as Hl.
  change (2 ^ 15) with 32768 in Hl. rewrite testbit_15 in Hl by done.
  rewrite Hl, clear_bit_15 by done.
  destruct (Z.leb_spec 32768 baudrate) as [Hhi|Hlo]; simpl.
  - assert (baudrate mod 32768 = baudrate - 32768) as ->.
    { symmetry. apply (Z.mod_unique_pos baudrate 32768 1); lia. }
    assert (u16 (baudrate - 32768) = baudrate - 32768) as ->
      by (unfold u16; apply Z.mod_small; lia).
    unfold u8. rewrite Z.shiftr_div_pow2 by lia. change (2 ^ 8) with 256.
    split_and!; [|done..]. apply Z.mod_small.
    split; [apply Z.div_pos; lia|]. apply Z.div_lt_upper_bound; lia.
  - rewrite (Z.mod_small baudrate 32768) by lia.
    unfold u8. rewrite Z.shiftr_div_pow2 by lia. change (2 ^ 8) with 256.
    split_and!; [|done..]. apply Z.mod_small.
    split; [apply Z.div_pos; lia|]. apply Z.div_lt_upper_bound; lia.
Qed.

Lemma u8_bit n : 0 ≤ n < 8 → u8 (Z.shiftl 1 n) = 2 ^ n.
Proof.
  intros Hn. rewrite Z.shiftl_mul_pow2, Z.mul_1_l by lia. unfold u8.
  apply Z.mod_small. split; [apply Z.pow_nonneg; lia|].
  change 256 with (2 ^ 8). apply Z.pow_lt_mono_r; lia.
Qed.

(** X1.  [UART_Init] takes bit 15 of its argument as the double-speed request
    and loads the other 15 bits into the divisor registers: UBRRH gets the
    high byte, which is always below 128, UBRRL the low byte.  The status
    register is written (with the U2X bit alone) only when double speed is
    requested. *)
Theorem UART_Init_baud baudrate s :
  0 ≤ baudrate < 65536 → 0 ≤ U2X < 8 →
  let s' := UART_Init baudrate s in
  256 * UBRRH (hw s') + UBRRL (hw s') = baudrate mod 32768 ∧
  0 ≤ UBRRH (hw s') < 128 ∧ 0 ≤ UBRRL (hw s') < 256 ∧
  UCSRA (hw s') = (if 32768 <=? baudrate then 2 ^ U2X else UCSRA (hw s)).
Proof.
  intros Hb HU s'.
  destruct (UART_Init_divisor baudrate s Hb) as (Hh & Hl & Ha).
  fold s' in Hh, Hl, Ha. rewrite Hh, Hl, Ha.
  pose proof (Z.mod_pos_bound baudrate 32768 ltac:(lia)) as Hd.
  pose proof (Z.mod_pos_bound (baudrate mod 32768) 256 ltac:(lia)).
  split_and!; try lia.
  - pose proof (Z.div_mod (baudrate mod 32768) 256). lia.
  - apply Z.div_pos; lia.
  - apply Z.div_lt_upper_bound; lia.
  - destruct (32768 <=? baudrate); [by apply u8_bit|done].
Qed.

(** X2.  [UART_Init] overwrites the control register: afterwards exactly the
    bits RXCIE, RXEN and TXEN are set, so the data-register-empty interrupt
    is off even if it was armed before; the global interrupt flag is set
    and nothing is written to the data register. *)
Theorem UART_Init_control baudrate s :
  0 ≤ RXCIE < 8 → 0 ≤ RXEN < 8 → 0 ≤ TXEN < 8 →
  let s' := UART_Init baudrate s in
  (∀ n, 0 ≤ n →
     Z.testbit (UCSRB (hw s')) n = (n =? RXCIE) || (n =? RXEN) || (n =? TXEN)) ∧
  (UART_UDRIE ≠ RXCIE → UART_UDRIE ≠ RXEN → UART_UDRIE ≠ TXEN → 0 ≤ UART_UDRIE →
     Z.testbit (UCSRB (hw s')) UART_UDRIE = false) ∧
  SREG_I (hw s') = true ∧ UDR (hw s') = UDR (hw s).
Proof.
  intros H1 H2 H3 s'.
  assert (∀ n, 0 ≤ n →
     Z.testbit (UCSRB (hw s')) n = (n =? RXCIE) || (n =? RXEN) || (n =? TXEN)) as Hbits.
  { intros n Hn. subst s'. unfold UART_Init. destruct (negb _); simpl.
    all: destruct (decide (n < 8)) as [Hlt|Hge].
    all: try (rewrite u8_testbit, !Z.lor_spec, !testbit_bit by lia; done).
    all: unfold u8; change 256 with (2 ^ 8); rewrite Z.mod_pow2_bits_high by lia.
    all: destruct (Z.eqb_spec n RXCIE), (Z.eqb_spec n RXEN), (Z.eqb_spec n TXEN);
      lia || done. }
  split_and!; [done| | |].
  - intros N1 N2 N3 Hn. rewrite Hbits by done.
    destruct (Z.eqb_spec UART_UDRIE RXCIE), (Z.eqb_spec UART_UDRIE RXEN),
      (Z.eqb_spec UART_UDRIE TXEN); done.
  - subst s'. unfold UART_Init. by destruct (negb _).
  - subst s'. unfold UART_Init. by destruct (negb _).
Qed.

(** X3.  [UART_Init] empties both rings whatever they held: no byte is left to
    read, the next get returns [UART_NO_DATA], and the next transmit
    interrupt sends nothing.  The arrays and the stored error code are not
    cleared. *)
Theorem UART_Init_empties baudrate s :
  let s' := UART_Init baudrate s in
  rx_live s' = [] ∧ tx_live s' = [] ∧
  UART_CharGetNonBlocking s' = (UART_NO_DATA, s') ∧
  UDR (hw (ISR_UART_TRANSMIT_INTERRUPT s')) = UDR (hw s) ∧
  UART_RxBuf s' = UART_RxBuf s ∧ UART_TxBuf s' = UART_TxBuf s ∧
  UART_LastRxError s' = UART_LastRxError s.
Proof.
  simpl.
  assert (UART_RxHead (UART_Init baudrate s) = 0 ∧ UART_RxTail (UART_Init baudrate s) = 0 ∧
          UART_TxHead (UART_Init baudrate s) = 0 ∧ UART_TxTail (UART_Init baudrate s) = 0 ∧
          UDR (hw (UART_Init baudrate s)) = UDR (hw s) ∧
          UART_RxBuf (UART_Init baudrate s) = UART_RxBuf s ∧
          UART_TxBuf (UART_Init baudrate s) = UART_TxBuf s ∧
          UART_LastRxError (UART_Init baudrate s) = UART_LastRxError s)
    as (Hrh & Hrt & Hth & Htt & Hu & Hrb & Htb & He).
  { unfold UART_Init. by destruct (negb _). }
  split_and!; try done.
  - unfold rx_live, ring_live, ring_count. by rewrite Hrh, Hrt.
  - unfold tx_live, ring_live, ring_count. by rewrite Hth, Htt.
  - apply get_empty. by rewrite Hrh, Hrt.
  - rewrite tx_isr_idle by (by rewrite Hth, Htt). simpl. done.
Qed.

(** X4.  The value [UART_BAUD_SELECT] computes, passed to [UART_Init], ends up
    in the divisor registers and leaves the status register alone; the
    value [UART_BAUD_SELECT_DOUBLE_SPEED] computes ends up there as well
    and sets the U2X bit.  Both as long as the divisor is below 32768. *)
Theorem UART_BAUD_SELECT_Init baudRate xtalCpu s :
  0 < baudRate → baudRate * 16 < 2 ^ 31 → 0 ≤ xtalCpu < 2 ^ 31 →
  0 ≤ U2X < 8 →
  (let d := xtalCpu ÷ (baudRate * 16) - 1 in
   0 ≤ d < 32768 →
   let s' := UART_Init (u16 (UART_BAUD_SELECT baudRate xtalCpu)) s in
   256 * UBRRH (hw s') + UBRRL (hw s') = d ∧ UCSRA (hw s') = UCSRA (hw s)) ∧
  (let d := xtalCpu ÷ (baudRate * 8) - 1 in
   0 ≤ d < 32768 →
   let s' := UART_Init (u16 (UART_BAUD_SELECT_DOUBLE_SPEED baudRate xtalCpu)) s in
   256 * UBRRH (hw s') + UBRRL (hw s') = d ∧ UCSRA (hw s') = 2 ^ U2X).
Proof.
  intros _ _ _ HU. split.
  - intros d Hd s'. subst s'. unfold UART_BAUD_SELECT. fold d.
    assert (u16 d = d) as -> by (unfold u16; apply Z.mod_small; lia).
    destruct (UART_Init_divisor d s ltac:(lia)) as (Hh & Hl & Ha).
    rewrite Hh, Hl, Ha. rewrite (Z.mod_small d 32768) by lia.
    destruct (Z.leb_spec 32768 d); [lia|].
    pose proof (Z.div_mod d 256). split; [lia|done].
  - intros d Hd s'. subst s'. unfold UART_BAUD_SELECT_DOUBLE_SPEED. fold d.
    assert (Z.lor d 32768 = d + 32768) as ->.
    { assert (Z.land d 32768 = 0) as H0.
      { pose proof (land_pow2 d 15 ltac:(lia)) as Hl. change (2 ^ 15) with 32768 in Hl.
        rewrite testbit_15 in Hl by lia. destruct (Z.leb_spec 32768 d); lia. }
      by rewrite Z.add_nocarry_lxor, Z.lxor_lor. }
    assert (u16 (d + 32768) = d + 32768) as -> by (unfold u16; apply Z.mod_small; lia).
    destruct (UART_Init_divisor (d + 32768) s ltac:(lia)) as (Hh & Hl & Ha).
    rewrite Hh, Hl, Ha.
    assert ((d + 32768) mod 32768 = d) as ->.
    { symmetry. apply (Z.mod_unique_pos (d + 32768) 32768 1); lia. }
    destruct (Z.leb_spec 32768 (d + 32768)); [|lia].
    pose proof (Z.div_mod d 256). split; [lia|by apply u8_bit].
Qed.

End Init.

(** ** Transmit side *)

Section Transmit.
Context {cfg : config}.



Lemma tx_isr_idle_fixed s :
  UART_TxHead s = UART_TxTail s →
  ISR_UART_TRANSMIT_INTERRUPT (ISR_UART_TRANSMIT_INTERRUPT s)
  = ISR_UART_TRANSMIT_INTERRUPT s.
Proof.
  intros Heq. rewrite (tx_isr_idle s Heq).
  rewrite tx_isr_idle by done. unfold set_hw, set_UCSRB. simpl. do 2 f_equal.
  set (m := Z.lnot (Z.shiftl 1 UART_UDRIE)). set (b := UCSRB (hw s)).
  unfold u8. rewrite <- !(Z.land_ones _ 8) by lia.
  rewrite <- !Z.land_assoc. f_equal.
  rewrite (Z.land_comm (Z.ones 8) (Z.land m (Z.ones 8))).
  rewrite <- !Z.land_assoc, Z.land_diag.
  by rewrite Z.land_assoc, Z.land_diag.
Qed.

(** X6.  As many transmit interrupts as bytes are queued send the queue in
    order; the next one finds the ring empty, clears the UDRIE bit and
    sends nothing, and from then on further transmit interrupts change
    nothing. *)
Theorem tx_drain_then_idle s :
  tx_size_ok → tx_ok s → udrie_ok →
  let n := length (tx_live s) in
  let s1 := tx_drain (S n) s in
  UDR (hw s1) = UDR (hw s) ++ tx_live s ∧
  tx_live s1 = [] ∧ UART_TxHead s1 = UART_TxTail s1 ∧
  Z.testbit (UCSRB (hw s1)) UART_UDRIE = false ∧
  ISR_UART_TRANSMIT_INTERRUPT s1 = s1.
Proof.
  intros HC Hok Hbit n s1.
  pose proof (size_ok_bounds _ HC) as HB.
  destruct (tx_drain_live n s HC Hok) as (Hu & Hl & Hok0); [done|].
  unfold n in Hu, Hl. rewrite firstn_all in Hu. rewrite drop_all in Hl. fold n in Hu, Hl.
  set (s0 := tx_drain n s) in *.
  assert (UART_TxHead s0 = UART_TxTail s0) as Heq.
  { destruct Hok0 as (Hh & Ht & _).
    apply (ring_count_empty UART_TX_BUFFER_SIZE); try done; [lia|].
    pose proof (tx_live_length s0) as Hlen. rewrite Hl in Hlen. simpl in Hlen.
    pose proof (ring_count_range UART_TX_BUFFER_SIZE (UART_TxHead s0) (UART_TxTail s0)).
    unfold tx_count in *. lia. }
  assert (s1 = ISR_UART_TRANSMIT_INTERRUPT s0) as Hs1 by done.
  rewrite Hs1. rewrite (tx_isr_idle s0 Heq). simpl. split_and!; try done.
  - unfold udrie_ok in Hbit. rewrite u8_testbit, Z.land_spec, Z.lnot_spec, testbit_bit by lia.
    rewrite Z.eqb_refl. apply andb_false_r.
  - rewrite <- (tx_isr_idle s0 Heq). by apply tx_isr_idle_fixed.
Qed.

(** The loop of [UART_StringPutNonBlocking], over the characters before
    the terminator. *)
Lemma string_put_all cs : ∀ rest irqs s,
  Forall (λ c, c ≠ 0) cs →
  UART_StringPutNonBlocking (cs ++ 0 :: rest) irqs s = put_all (u8 <$> cs) irqs s.
Proof.
  induction cs as [|c cs IH]; intros rest irqs s Hnz; [done|].
  inversion Hnz as [|? ? Hc Hcs]; subst. simpl.
  destruct (Z.eqb_spec c 0); [done|].
  destruct (UART_CharPutNonBlocking (u8 c) irqs s) as [[irqs1 s1]| |]; [|done..].
  by apply IH.
Qed.

(** Puts that fit do not wait, whatever the schedule. *)
Lemma put_all_fits cs : ∀ irqs s,
  tx_size_ok → tx_ok s →
  tx_count s + Z.of_nat (length cs) ≤ UART_TX_BUFFER_SIZE - 1 →
  ∃ s1, put_all cs irqs s = Returns (irqs, s1) ∧
        tx_live s1 = tx_live s ++ cs ∧ tx_ok s1 ∧ UDR (hw s1) = UDR (hw s).
Proof.
  induction cs as [|c cs IH]; intros irqs s HC Hok Hfit.
  - exists s. simpl. by rewrite app_nil_r.
  - simpl in *.
    assert (¬ tx_full s) as Hnf by (rewrite tx_full_count by done; lia).
    destruct (put_live c irqs s HC Hok Hnf) as (s' & Hp & Hl & Hc & Hok' & _).
    destruct (IH irqs s' HC Hok') as (s1 & Hp1 & Hl1 & Hok1 & Hu1); [lia|].
    exists s1. rewrite Hp. split_and!; try done.
    + by rewrite Hl1, Hl, <- app_assoc.
    + rewrite Hu1. rewrite put_not_full in Hp by done. by injection Hp as <-.
Qed.

(** X8.  A string that fits into the free part of the transmit ring is queued
    without waiting and without using up the schedule, and as many
    transmit interrupts as it has characters then write first the bytes
    that were queued before it and then the head of the string to the
    data register, in order; once the ring was empty, that is the string
    itself. *)
Theorem string_transmitted_in_order cs rest irqs s :
  tx_size_ok → tx_ok s → Forall (λ c, 0 < c < 256) cs →
  tx_count s + Z.of_nat (length cs) ≤ UART_TX_BUFFER_SIZE - 1 →
  ∃ s1, UART_StringPutNonBlocking (cs ++ 0 :: rest) irqs s = Returns (irqs, s1) ∧
        tx_live s1 = tx_live s ++ cs ∧
        UDR (hw (tx_drain (length cs) s1))
        = UDR (hw s) ++ take (length cs) (tx_live s ++ cs) ∧
        (UART_TxHead s = UART_TxTail s →
         UDR (hw (tx_drain (length cs) s1)) = UDR (hw s) ++ cs).
Proof.
  intros HC Hok Hcs Hfit.
  assert (u8 <$> cs = cs) as Hu8.
  { rewrite <- (list_fmap_id cs) at 2. apply Forall_fmap_ext_1.
    revert Hcs. apply Forall_impl. intros c Hc. unfold u8. simpl. apply Z.mod_small. lia. }
  rewrite string_put_all by (revert Hcs; apply Forall_impl; lia).
  rewrite Hu8.
  destruct (put_all_fits cs irqs s HC Hok Hfit) as (s1 & Hp & Hl & Hok1 & Hu).
  exists s1. split; [done|]. split; [done|].
  destruct (tx_drain_live (length cs) s1 HC Hok1) as (Hd & _ & _).
  { rewrite Hl, length_app. lia. }
  rewrite Hd, Hu, Hl. split; [done|].
  intros Hempty.
  assert (tx_live s = []) as ->.
  { apply length_zero_iff_nil. rewrite tx_live_length.
    unfold tx_count, ring_count. by rewrite Hempty, Z.sub_diag, Zmod_0_l. }
  simpl. by rewrite firstn_all.
Qed.

(** X9.  A string with more characters than the transmit ring has free slots
    blocks: with no transmit interrupt in the schedule the call never
    returns, however many bytes are received meanwhile. *)
Theorem string_too_long_blocks cs : ∀ rest irqs s,
  tx_size_ok → tx_ok s → Forall (λ c, c ≠ 0) cs →
  Forall (λ i, i ≠ UDRE) irqs →
  UART_TX_BUFFER_SIZE - 1 - tx_count s < Z.of_nat (length cs) →
  UART_StringPutNonBlocking (cs ++ 0 :: rest) irqs s = Spins.
Proof.
  induction cs as [|c cs IH]; intros rest irqs s HC Hok Hnz Hno Hlen.
  - pose proof (ring_count_range UART_TX_BUFFER_SIZE (UART_TxHead s) (UART_TxTail s)) as Hr.
    apply size_ok_bounds in HC. unfold tx_count in Hlen. simpl in Hlen. lia.
  - inversion Hnz as [|? ? Hc Hcs]; subst. simpl.
    destruct (Z.eqb_spec c 0); [done|].
    destruct (decide ((UART_TxHead s + 1) mod UART_TX_BUFFER_SIZE = UART_TxTail s))
      as [Hfull|Hnf].
    + by rewrite put_full_no_udre.
    + destruct (put_live (u8 c) irqs s HC Hok Hnf) as (s' & Hp & _ & Hc' & Hok' & _).
      rewrite Hp. apply IH; try done. simpl in Hlen. lia.
Qed.

End Transmit.

(** ** Receive side *)

Section Receive.
Context {cfg : config}.

Lemma rx_all_app l1 l2 s : rx_all (l1 ++ l2) s = rx_all l2 (rx_all l1 s).
Proof. unfold rx_all. apply foldl_app. Qed.

Lemma rx_isr_tail usr data s :
  UART_RxTail (ISR_UART_RECEIVE_INTERRUPT usr data s) = UART_RxTail s.
Proof. unfold ISR_UART_RECEIVE_INTERRUPT. by destruct (_ =? _). Qed.

Lemma rx_all_cons usr data l s :
  rx_all ((usr, data) :: l) s = rx_all l (ISR_UART_RECEIVE_INTERRUPT usr data s).
Proof. done. Qed.

Lemma rx_all_tail l : ∀ s, UART_RxTail (rx_all l s) = UART_RxTail s.
Proof.
  induction l as [|[usr data] l IH]; intros s; [done|].
  rewrite rx_all_cons, IH. apply rx_isr_tail.
Qed.

(** On a full ring a burst only records the overflow code. *)
Lemma rx_all_full l : ∀ s,
  rx_size_ok → rx_full s → l ≠ [] → rx_all l s = set_LastRxError 2 s.
Proof.
  induction l as [|[usr data] l IH]; intros s HC Hfull Hne; [done|].
  rewrite rx_all_cons, rx_isr_full by done.
  destruct l as [|a l]; [done|].
  rewrite IH; done.
Qed.

Lemma flags_u8 usr m : byte usr → u8 (Z.land usr m) = Z.land usr m.
Proof.
  intros Hu. unfold u8. apply Z.mod_small. rewrite Z.land_comm.
  pose proof (land_mask_range m usr). unfold byte in Hu. lia.
Qed.

Lemma rx_live_bytes s : Forall byte (UART_RxBuf s) → Forall byte (rx_live s).
Proof.
  intros Hb. unfold rx_live, ring_live. apply Forall_fmap, Forall_forall.
  intros i _. simpl. by apply rd_byte.
Qed.

Lemma rx_isr_bytes usr data s :
  byte data → Forall byte (UART_RxBuf s) →
  Forall byte (UART_RxBuf (ISR_UART_RECEIVE_INTERRUPT usr data s)).
Proof.
  intros Hd Hb. unfold ISR_UART_RECEIVE_INTERRUPT.
  destruct (_ =? _); simpl; [done|]. by apply wr_byte.
Qed.

Lemma rx_all_bytes l : ∀ s,
  Forall (λ a : Z * Z, byte a.2) l → Forall byte (UART_RxBuf s) →
  Forall byte (UART_RxBuf (rx_all l s)).
Proof.
  induction l as [|[usr data] l IH]; intros s Hl Hb; [done|].
  inversion Hl as [|? ? Ha Hrest]; subst. rewrite rx_all_cons.
  apply IH; [done|]. by apply rx_isr_bytes.
Qed.

Lemma empty_live s : UART_RxHead s = UART_RxTail s → rx_live s = [] ∧ rx_count s = 0.
Proof.
  intros Heq. unfold rx_live, ring_live, rx_count, ring_count.
  by rewrite Heq, Z.sub_diag, Zmod_0_l.
Qed.

Lemma live_nonempty s : rx_live s ≠ [] → UART_RxHead s ≠ UART_RxTail s.
Proof. intros Hl Heq. by apply empty_live in Heq as [? _]. Qed.

(** X10.  A burst of any length: the bytes that find a free slot are queued in
    arrival order behind what was buffered, the tail does not move, and
    every byte beyond the free slots is dropped; when at least one is
    dropped the ring ends full with the overflow code recorded, whatever
    status the dropped bytes came with. *)
Theorem rx_burst arrivals s :
  rx_size_ok → rx_ok s →
  let free := Z.to_nat (UART_RX_BUFFER_SIZE - 1 - rx_count s) in
  let s' := rx_all arrivals s in
  rx_live s' = rx_live s ++ take free arrivals.*2 ∧
  UART_RxTail s' = UART_RxTail s ∧
  ((free < length arrivals)%nat →
     s' = set_LastRxError 2 (rx_all (take free arrivals) s) ∧
     rx_full s' ∧ UART_LastRxError s' = Z.shiftr UART_BUFFER_OVERFLOW 8).
Proof.
  intros HC Hok free s'.
  pose proof (rx_count_range s HC) as Hr.
  destruct (rx_all_live (take free arrivals) s HC Hok) as [Hl1 Hok1].
  { rewrite length_take. lia. }
  set (s1 := rx_all (take free arrivals) s) in *.
  assert (s' = rx_all (drop free arrivals) s1) as Hs'.
  { subst s' s1. by rewrite <- rx_all_app, take_drop. }
  rewrite fmap_take in Hl1.
  destruct (decide (free < length arrivals)%nat) as [Hlt|Hge].
  - assert (rx_full s1) as Hfull.
    { apply rx_full_count; [done..|].
      pose proof (rx_live_length s1) as Hlen. rewrite Hl1, length_app, length_take in Hlen.
      rewrite rx_live_length, length_fmap in Hlen.
      pose proof (rx_count_range s1 HC). lia. }
    assert (s' = set_LastRxError 2 s1) as Hs2.
    { rewrite Hs'. apply rx_all_full; [done..|].
      intros Hnil. apply (f_equal length) in Hnil. rewrite length_drop in Hnil.
      simpl in Hnil. lia. }
    split_and!.
    + rewrite Hs2. exact Hl1.
    + apply rx_all_tail.
    + intros _. rewrite Hs2. split_and!; done.
  - assert (drop free arrivals = []) as Hd by (apply drop_ge; lia).
    rewrite Hd in Hs'. simpl in Hs'. rewrite Hs'.
    split_and!; [done|apply rx_all_tail|lia].
Qed.


(** X12.  A byte received into an empty ring and read at once comes back in the
    low byte of the result; the high byte holds the status register
    masked to its FE and DOR bits, so bit 8 + k of the result is bit k of
    the status register for k = FE or k = DOR and is clear for every other
    k.  The ring is empty again. *)
Theorem receive_then_get usr data s :
  rx_size_ok → rx_ok s → byte usr → byte data →
  UART_RxHead s = UART_RxTail s →
  let r := (UART_CharGetNonBlocking (ISR_UART_RECEIVE_INTERRUPT usr data s)).1 in
  let s' := (UART_CharGetNonBlocking (ISR_UART_RECEIVE_INTERRUPT usr data s)).2 in
  r mod 256 = data ∧
  r / 256 = Z.land usr (Z.lor (Z.shiftl 1 FE) (Z.shiftl 1 DOR)) ∧
  (∀ k, 0 ≤ k →
     Z.testbit r (8 + k) = Z.testbit usr k && ((k =? FE) || (k =? DOR))) ∧
  rx_live s' = [] ∧ UART_RxHead s' = UART_RxTail s'.
Proof.
  intros HC Hok Hu Hd Hempty r s'.
  pose proof (size_ok_bounds _ HC) as HB.
  destruct (empty_live s Hempty) as [Hl0 Hc0].
  assert (¬ rx_full s) as Hnf by (rewrite rx_full_count by done; lia).
  destruct (rx_isr_live usr data s HC Hok Hnf) as (Hl1 & _ & Hok1 & _).
  rewrite Hl0 in Hl1. simpl in Hl1.
  set (s1 := ISR_UART_RECEIVE_INTERRUPT usr data s) in *.
  assert (UART_LastRxError s1 = Z.land usr (Z.lor (Z.shiftl 1 FE) (Z.shiftl 1 DOR))) as He.
  { subst s1. rewrite rx_isr_store by done. simpl. by apply flags_u8. }
  assert (UART_RxHead s1 ≠ UART_RxTail s1) as Hne
    by (apply live_nonempty; by rewrite Hl1).
  destruct (get_live s1 HC Hok1 Hne) as (d & Hl & Hr & _ & Hok2 & _).
  rewrite Hl1 in Hl. injection Hl as <- Hl2. fold r in Hr. fold s' in Hl2, Hok2.
  assert (byte (UART_LastRxError s1)) as Hbe.
  { rewrite He. rewrite <- (flags_u8 usr) by done. apply u8_byte. }
  destruct (composite_bytes _ _ Hbe Hd) as (Hval & Hhi & Hlo).
  rewrite <- Hr in Hval, Hhi, Hlo. rewrite He in Hhi.
  split_and!; try done.
  - intros k Hk. rewrite Z.add_comm.
    rewrite <- (Z.div_pow2_bits r 8 k) by lia. change (2 ^ 8) with 256.
    rewrite Hhi, Z.land_spec, Z.lor_spec, !testbit_bit by done. done.
  - destruct Hok2 as (Hh & Ht & _).
    apply (ring_count_empty UART_RX_BUFFER_SIZE); try done; [lia|].
    pose proof (rx_live_length s') as Hlen. rewrite <- Hl2 in Hlen. simpl in Hlen.
    pose proof (rx_count_range s' HC). unfold rx_count in *. lia.
Qed.

End Receive.

Section Reads.
Context {cfg : config}.

(** X13.  The error code is the last one observed, not the one of the byte
    returned: after a burst that fits, ending with a byte of status [usr],
    every get that delivers a byte reports the FE/DOR flags of [usr] in
    its high byte, also for the bytes that arrived earlier under other
    flags. *)
Theorem error_is_last_observed l usr data n s :
  rx_size_ok → rx_ok s → Forall byte (UART_RxBuf s) → byte usr →
  Forall (λ a : Z * Z, byte a.2) (l ++ [(usr, data)]) →
  rx_count s + Z.of_nat (length l) + 1 ≤ UART_RX_BUFFER_SIZE - 1 →
  let s1 := rx_all (l ++ [(usr, data)]) s in
  let flags := Z.land usr (Z.lor (Z.shiftl 1 FE) (Z.shiftl 1 DOR)) in
  (n ≤ length (rx_live s1))%nat →
  UART_LastRxError s1 = flags ∧
  Forall (λ r, r / 256 = flags) (get_n n s1).1 ∧
  length (get_n n s1).1 = n.
Proof.
  intros HC Hok Hb Hu Hbytes Hfit s1 flags Hn.
  destruct (rx_all_live l s HC Hok) as [Hl0 Hok0]; [lia|].
  set (s0 := rx_all l s) in *.
  assert (s1 = ISR_UART_RECEIVE_INTERRUPT usr data s0) as Hs1.
  { subst s1 s0. by rewrite rx_all_app. }
  assert (¬ rx_full s0) as Hnf.
  { rewrite rx_full_count by done.
    pose proof (rx_live_length s0) as Hlen.
    rewrite Hl0, length_app, length_fmap, rx_live_length in Hlen.
    pose proof (rx_count_range s HC). pose proof (rx_count_range s0 HC). lia. }
  destruct (rx_isr_live usr data s0 HC Hok0 Hnf) as (_ & _ & Hok1 & _).
  rewrite <- Hs1 in Hok1.
  assert (UART_LastRxError s1 = flags) as He.
  { rewrite Hs1, rx_isr_store by done. simpl. by apply flags_u8. }
  destruct (get_n_live n s1 HC Hok1 Hn) as (Ho & _ & _).
  split_and!; [done| |].
  - rewrite Ho. apply Forall_fmap.
    assert (Forall byte (rx_live s1)) as Hall.
    { apply rx_live_bytes. by apply rx_all_bytes. }
    apply (Forall_take _ n) in Hall. revert Hall. apply Forall_impl.
    intros d Hd. simpl. rewrite He.
    assert (byte flags) as Hbf.
    { unfold flags. rewrite <- (flags_u8 usr) by done. apply u8_byte. }
    by destruct (composite_bytes flags d Hbf Hd) as (_ & ? & _).
  - rewrite Ho, length_fmap, length_take. lia.
Qed.

Lemma get_n_empty n : ∀ s,
  UART_RxHead s = UART_RxTail s → get_n n s = (replicate n UART_NO_DATA, s).
Proof.
  induction n as [|n IH]; intros s Heq; [done|].
  simpl. rewrite get_empty by done. by rewrite IH.
Qed.

Lemma get_n_add n : ∀ m s,
  get_n (n + m) s
  = ((get_n n s).1 ++ (get_n m (get_n n s).2).1, (get_n m (get_n n s).2).2).
Proof.
  induction n as [|n IH]; intros m s.
  - simpl. by destruct (get_n m s).
  - simpl. destruct (UART_CharGetNonBlocking s) as [r s1].
    rewrite IH. destruct (get_n n s1) as [rs s2]. simpl.
    by destruct (get_n m s2).
Qed.

(** X14.  Reading more often than bytes are buffered: the buffered bytes come
    first, in order, then every further get returns [UART_NO_DATA] and
    leaves the state as the last delivering get left it. *)
Theorem get_n_past_end n s :
  rx_size_ok → rx_ok s → (length (rx_live s) ≤ n)%nat →
  let k := length (rx_live s) in
  (get_n n s).1
  = ((λ d, u16 (Z.shiftl (UART_LastRxError s) 8 + d)) <$> rx_live s)
    ++ replicate (n - k) UART_NO_DATA ∧
  (get_n n s).2 = (get_n k s).2 ∧
  UART_RxHead (get_n n s).2 = UART_RxTail (get_n n s).2.
Proof.
  intros HC Hok Hn k.
  pose proof (size_ok_bounds _ HC) as HB.
  destruct (get_n_live k s HC Hok) as (Ho & Hl & Hok1); [done|].
  unfold k in Ho, Hl. rewrite firstn_all in Ho. rewrite drop_all in Hl. fold k in Ho, Hl.
  assert (UART_RxHead (get_n k s).2 = UART_RxTail (get_n k s).2) as Hempty.
  { destruct Hok1 as (Hh & Ht & _).
    apply (ring_count_empty UART_RX_BUFFER_SIZE); try done; [lia|].
    pose proof (rx_live_length (get_n k s).2) as Hlen. rewrite Hl in Hlen. simpl in Hlen.
    pose proof (rx_count_range (get_n k s).2 HC). unfold rx_count in *. lia. }
  assert (get_n n s = get_n (k + (n - k)) s) as -> by (f_equal; lia).
  rewrite get_n_add, (get_n_empty (n - k) (get_n k s).2) by done.
  simpl. by rewrite Ho.
Qed.

(** X15.  [UART_CharsAvail] never reports more bytes than are buffered and
    never as many as the ring can hold; as long as the ring is not full it
    is at most one short. *)
Theorem UART_CharsAvail_bounds s :
  rx_size_ok → idx_ok s →
  0 ≤ UART_CharsAvail s ≤ rx_count s ∧
  UART_CharsAvail s < UART_RX_BUFFER_SIZE - 1 ∧
  (rx_count s < UART_RX_BUFFER_SIZE - 1 → rx_count s - 1 ≤ UART_CharsAvail s) ∧
  (UART_RxHead s = UART_RxTail s → UART_CharsAvail s = 0).
Proof.
  intros HC Hidx.
  pose proof (size_ok_bounds _ HC) as HB.
  pose proof (rx_count_range s HC) as Hr.
  rewrite (UART_CharsAvail_value s HC Hidx).
  destruct Hidx as [[Hh Ht] _].
  assert (UART_RxHead s < UART_RxTail s → rx_count s ≠ 0) as Hwrap.
  { intros Hlt H0. unfold rx_count in H0.
    rewrite ring_count_empty in H0; lia. }
  assert (UART_RxHead s = UART_RxTail s → rx_count s = 0) as Hemp
    by (intros Heq; by apply empty_live in Heq as [_ ?]).
  destruct (Z.leb_spec (UART_RxTail s) (UART_RxHead s));
    destruct (Z.eqb_spec (rx_count s) (UART_RX_BUFFER_SIZE - 1)); lia.
Qed.

(** X16.  The two directions do not interfere: the receive interrupt and the
    transmit interrupt commute, a get commutes with the transmit
    interrupt, and a put that does not have to wait commutes with the
    receive interrupt and with a get. *)
Theorem rx_tx_independent usr data s :
  ISR_UART_RECEIVE_INTERRUPT usr data (ISR_UART_TRANSMIT_INTERRUPT s)
  = ISR_UART_TRANSMIT_INTERRUPT (ISR_UART_RECEIVE_INTERRUPT usr data s) ∧
  UART_CharGetNonBlocking (ISR_UART_TRANSMIT_INTERRUPT s)
  = ((UART_CharGetNonBlocking s).1,
     ISR_UART_TRANSMIT_INTERRUPT (UART_CharGetNonBlocking s).2) ∧
  (∀ c s',
     UART_CharPutNonBlocking c [] s = Returns ([], s') →
     UART_CharPutNonBlocking c [] (ISR_UART_RECEIVE_INTERRUPT usr data s)
     = Returns ([], ISR_UART_RECEIVE_INTERRUPT usr data s') ∧
     UART_CharPutNonBlocking c [] (UART_CharGetNonBlocking s).2
     = Returns ([], (UART_CharGetNonBlocking s').2) ∧
     (UART_CharGetNonBlocking s').1 = (UART_CharGetNonBlocking s).1).
Proof.
  split_and!.
  - unfold ISR_UART_RECEIVE_INTERRUPT, ISR_UART_TRANSMIT_INTERRUPT.
    destruct (negb (UART_TxHead s =? UART_TxTail s)) eqn:Ht; simpl;
      destruct (_ =? UART_RxTail s); simpl; rewrite ?Ht; done.
  - unfold UART_CharGetNonBlocking, ISR_UART_TRANSMIT_INTERRUPT.
    destruct (negb (UART_TxHead s =? UART_TxTail s)) eqn:Ht; simpl;
      destruct (UART_RxHead s =? UART_RxTail s); simpl; rewrite ?Ht; done.
  - intros c s'. unfold UART_CharPutNonBlocking. simpl.
    destruct (_ =? UART_TxTail s) eqn:Hfull; [done|]. intros [= <-].
    split_and!.
    + unfold ISR_UART_RECEIVE_INTERRUPT.
      destruct (_ =? UART_RxTail s) eqn:Hrx; simpl; rewrite Hfull, ?Hrx; done.
    + unfold UART_CharGetNonBlocking.
      destruct (UART_RxHead s =? UART_RxTail s) eqn:Hrx; simpl; rewrite Hfull, ?Hrx; done.
    + unfold UART_CharGetNonBlocking. simpl.
      by destruct (UART_RxHead s =? UART_RxTail s).
Qed.

Lemma succ_mod_inj C h t :
  2 ≤ C → 0 ≤ h < C → 0 ≤ t < C → (h + 1) mod C = (t + 1) mod C → h = t.
Proof.
  intros HC Hh Ht Heq.
  destruct (Z.lt_trichotomy h t) as [Hlt|[Heq'|Hgt]]; [|done|].
  - exfalso. revert Heq. replace (h + 1) with (0 + 1 + h) by lia.
    replace (t + 1) with (0 + 1 + t) by lia. apply slot_ne; lia.
  - exfalso. symmetry in Heq. revert Heq. replace (h + 1) with (0 + 1 + h) by lia.
    replace (t + 1) with (0 + 1 + t) by lia. apply slot_ne; lia.
Qed.

(** X17.  Producer and consumer of the receive ring commute away from its
    boundaries: on a ring neither empty nor full, a receive interrupt
    followed by a get leaves the state that the get followed by the
    interrupt leaves, and the get delivers the same byte either way; only
    the error code it reports is the newer one when the interrupt came
    first. *)
Theorem rx_isr_get_commute usr data s :
  rx_size_ok → rx_ok s → ¬ rx_full s → UART_RxHead s ≠ UART_RxTail s →
  let s1 := ISR_UART_RECEIVE_INTERRUPT usr data s in
  (UART_CharGetNonBlocking s1).2
  = ISR_UART_RECEIVE_INTERRUPT usr data (UART_CharGetNonBlocking s).2 ∧
  ∃ d, (UART_CharGetNonBlocking s).1 = u16 (Z.shiftl (UART_LastRxError s) 8 + d) ∧
       (UART_CharGetNonBlocking s1).1 = u16 (Z.shiftl (UART_LastRxError s1) 8 + d).
Proof.
  intros HC (Hh & Ht & Hlen) Hnf Hne s1.
  pose proof (size_ok_bounds _ HC) as HB.
  set (C := UART_RX_BUFFER_SIZE) in *.
  set (h' := (UART_RxHead s + 1) mod C). set (t' := (UART_RxTail s + 1) mod C).
  assert (h' ≠ UART_RxTail s) as Hnf' by done.
  assert (h' ≠ t') as Hht.
  { intros Heq. apply Hne. apply (succ_mod_inj C); [lia|done..]. }
  assert (0 ≤ h' < C ∧ 0 ≤ t' < C) as [Hh' Ht'] by (split; apply mod_range; lia).
  assert (s1 = set_LastRxError (u8 (Z.land usr (Z.lor (Z.shiftl 1 FE) (Z.shiftl 1 DOR))))
                 (set_RxBuf (wr (UART_RxBuf s) h' data) (set_RxHead h' s))) as Hs1.
  { subst s1. by rewrite rx_isr_store. }
  assert (UART_CharGetNonBlocking s
          = (u16 (Z.shiftl (UART_LastRxError s) 8 + rd (UART_RxBuf s) t'), set_RxTail t' s))
    as Hg by (by rewrite get_take).
  assert (UART_CharGetNonBlocking s1
          = (u16 (Z.shiftl (UART_LastRxError s1) 8 + rd (UART_RxBuf s1) t'),
             set_RxTail t' s1)) as Hg1.
  { rewrite get_take; [|done|]; rewrite Hs1; simpl; done. }
  assert (rd (UART_RxBuf s1) t' = rd (UART_RxBuf s) t') as Hrd.
  { rewrite Hs1. simpl. apply rd_wr_ne; lia. }
  rewrite Hg, Hg1, Hrd. simpl. split; [|by eexists].
  rewrite rx_isr_store.
  - rewrite Hs1. done.
  - done.
  - unfold rx_full, ring_full. simpl. fold C h' t'. done.
Qed.

End Reads.

(** ** Every byte is accounted for *)

Section Conservation.
Context {cfg : config}.

Lemma next_moves C x : 2 ≤ C → 0 ≤ x < C → ((x + 1) mod C =? x) = false.
Proof. intros HC Hx. apply Z.eqb_neq. by apply next_ne. Qed.

Lemma rx_history_inv evs : ∀ s log X,
  rx_size_ok → rx_ok s → Forall byte (UART_RxBuf s) → Forall rx_event_ok evs →
  (departed_byte <$> departed log) ++ rx_live s = X ++ accepted log →
  let log' := (rx_history evs s log).1 in
  let s' := (rx_history evs s log).2 in
  (departed_byte <$> departed log') ++ rx_live s' = X ++ accepted log' ∧
  (length (accepted log') + length (dropped log')
   = length (accepted log) + length (dropped log) + length (arrivals_of evs))%nat ∧
  rx_ok s' ∧ Forall byte (UART_RxBuf s').
Proof.
  induction evs as [|e evs IH]; intros s log X HC Hok Hb Hevs Hinv.
  { simpl. split_and!; first [done|lia]. }
  pose proof (size_ok_bounds _ HC) as HB.
  inversion Hevs as [|? ? He Hrest]; subst.
  destruct e as [usr data| |]; simpl.
  - destruct He as [Hu Hd].
    destruct (decide ((UART_RxHead s + 1) mod UART_RX_BUFFER_SIZE = UART_RxTail s))
      as [Hfull|Hnf].
    + rewrite rx_isr_full by done. simpl. rewrite Z.eqb_refl.
      destruct (IH (set_LastRxError 2 s)
                  (RxLog (accepted log) (dropped log ++ [data]) (departed log)) X)
        as (H1 & H2 & H3 & H4); try done.
      split_and!; try done. rewrite H2. simpl. rewrite length_app. simpl. lia.
    + destruct (rx_isr_live usr data s HC Hok Hnf) as (Hl & _ & Hok' & _).
      assert (Forall byte (UART_RxBuf (ISR_UART_RECEIVE_INTERRUPT usr data s))) as Hb'
        by (by apply rx_isr_bytes).
      assert ((UART_RxHead (ISR_UART_RECEIVE_INTERRUPT usr data s) =? UART_RxHead s) = false)
        as ->.
      { rewrite rx_isr_store by done. simpl. apply next_moves; [lia|]. by destruct Hok. }
      destruct (IH (ISR_UART_RECEIVE_INTERRUPT usr data s)
                  (RxLog (accepted log ++ [data]) (dropped log) (departed log)) X)
        as (H1 & H2 & H3 & H4); try done.
      { simpl. by rewrite Hl, !app_assoc, Hinv. }
      split_and!; try done. rewrite H2. simpl. rewrite length_app. simpl. lia.
  - destruct (decide (UART_RxHead s = UART_RxTail s)) as [Hempty|Hne].
    + rewrite get_empty by done. rewrite Z.eqb_refl. by apply IH.
    + destruct (get_live s HC Hok Hne) as (d & Hl & Hr & _ & Hok' & _).
      assert (byte d) as Hd.
      { assert (Forall byte (rx_live s)) as Hall by (by apply rx_live_bytes).
        rewrite Hl in Hall. by inversion Hall. }
      assert (Forall byte (UART_RxBuf (UART_CharGetNonBlocking s).2)) as Hb'
        by (by rewrite get_take).
      assert ((UART_RxTail (UART_CharGetNonBlocking s).2 =? UART_RxTail s) = false) as Hmv.
      { rewrite get_take by done. simpl. apply next_moves; [lia|]. by destruct Hok as (_ & ? & _). }
      destruct (UART_CharGetNonBlocking s) as [r s1] eqn:Hg. simpl in *.
      rewrite Hmv. rewrite Hr, composite_low by done.
      destruct (IH s1 (RxLog (accepted log) (dropped log) (departed log ++ [Delivered d])) X)
        as (H1 & H2 & H3 & H4); try done.
      simpl. rewrite fmap_app. simpl. rewrite <- app_assoc. simpl.
      by rewrite <- Hl.
  - destruct (IH (UART_FlushBuffer s)
                (RxLog (accepted log) (dropped log)
                   (departed log ++ (Discarded <$> rx_live s))) X)
      as (H1 & H2 & H3 & H4); try done.
    + unfold rx_ok in *. simpl. lia.
    + simpl. rewrite fmap_app, <- list_fmap_compose.
      assert (rx_live (UART_FlushBuffer s) = []) as ->.
      { by apply empty_live. }
      rewrite app_nil_r.
      rewrite (list_fmap_ext (departed_byte ∘ Discarded) id (rx_live s)) by done.
      by rewrite list_fmap_id.
Qed.

(** X18.  Under any interleaving of receive interrupts, gets and flushes, no
    byte is lost without trace or made up: the bytes that left the ring
    (delivered by a get or discarded by a flush), in the order they left,
    followed by the bytes still buffered, are exactly the bytes buffered
    at the start followed by the bytes the interrupt stored, in arrival
    order; every arrived byte was either stored or dropped; so
    arrived + initially buffered = dropped + left + still buffered. *)
Theorem rx_conservation evs s :
  rx_size_ok → rx_ok s → Forall byte (UART_RxBuf s) → Forall rx_event_ok evs →
  let log := (rx_history evs s no_log).1 in
  let s' := (rx_history evs s no_log).2 in
  (departed_byte <$> departed log) ++ rx_live s' = rx_live s ++ accepted log ∧
  (length (accepted log) + length (dropped log) = length (arrivals_of evs))%nat ∧
  (length (arrivals_of evs) + length (rx_live s)
   = length (dropped log) + length (departed log) + length (rx_live s'))%nat ∧
  (forallb (λ e, negb (is_flush e)) evs = true →
   forallb is_delivered (departed log) = true) .
Proof.
  intros HC Hok Hb Hevs log s'.
  destruct (rx_history_inv evs s no_log (rx_live s) HC Hok Hb Hevs) as (H1 & H2 & _ & _).
  { simpl. by rewrite app_nil_r. }
  fold log s' in H1, H2. simpl in H2.
  split_and!; [done|done| |].
  - apply (f_equal length) in H1. rewrite !length_app, length_fmap in H1. lia.
  - intros Hnf. subst log. clear -Hnf.
    assert (∀ evs s log, forallb (λ e, negb (is_flush e)) evs = true →
              forallb is_delivered (departed log) = true →
              forallb is_delivered (departed (rx_history evs s log).1) = true) as Hgen.
    { clear. induction evs as [|e evs IH]; intros s log Hnf Hlog; [done|].
      simpl in Hnf. apply andb_true_iff in Hnf as [He Hnf].
      destruct e as [usr data| |]; simpl; [| |done].
      - apply IH; [done|]. by destruct (_ =? _).
      - destruct (UART_CharGetNonBlocking s) as [r s1]. apply IH; [done|].
        destruct (_ =? _); [done|]. simpl.
        rewrite forallb_app, Hlog. done. }
    by apply Hgen.
Qed.

End Conservation.

(** * The further properties at concrete states *)

(** Every element of a literal list, one by one. *)
Ltac each tac := repeat (apply List.Forall_cons; [tac|]); apply List.Forall_nil.

(** Double speed with divisor 51: U2X is written, 51 goes to UBRRL. *)
Lemma UART_Init_baud_witness :
  let s' := UART_Init (cfg := cfg32) 0x8033 (power_on (cfg := cfg32) regs0) in
  256 * UBRRH (hw s') + UBRRL (hw s') = 51 ∧ UCSRA (hw s') = 2.
Proof.
  destruct (UART_Init_baud (cfg := cfg32) 0x8033 (power_on (cfg := cfg32) regs0))
    as (Hd & _ & _ & Ha).
  - lia.
  - simpl. lia.
  - split; [exact Hd|exact Ha].
Defined.

(** Initialising again while three bytes wait to be sent: the
    data-register-empty interrupt, armed before, is off afterwards. *)
Lemma UART_Init_control_witness :
  Z.testbit (UCSRB (hw s_txfull4)) 5 = true ∧
  Z.testbit (UCSRB (hw (UART_Init (cfg := cfg4) 51 s_txfull4))) 5 = false.
Proof.
  split; [reflexivity|].
  destruct (UART_Init_control (cfg := cfg4) 51 s_txfull4) as (_ & Hoff & _).
  - simpl. lia.
  - simpl. lia.
  - simpl. lia.
  - apply Hoff; simpl; lia.
Defined.

(** 9600 baud at 8 MHz: divisor 51 at normal speed, 103 at double speed. *)
Lemma UART_BAUD_SELECT_Init_witness :
  (let s' := UART_Init (cfg := cfg32) (u16 (UART_BAUD_SELECT 9600 8000000))
               (power_on (cfg := cfg32) regs0) in
   256 * UBRRH (hw s') + UBRRL (hw s') = 51 ∧ UCSRA (hw s') = 32) ∧
  (let s' := UART_Init (cfg := cfg32) (u16 (UART_BAUD_SELECT_DOUBLE_SPEED 9600 8000000))
               (power_on (cfg := cfg32) regs0) in
   256 * UBRRH (hw s') + UBRRL (hw s') = 103 ∧ UCSRA (hw s') = 2).
Proof.
  destruct (UART_BAUD_SELECT_Init (cfg := cfg32) 9600 8000000 (power_on (cfg := cfg32) regs0))
    as [Hn Hd].
  - lia.
  - lia.
  - lia.
  - simpl. lia.
  - split; [apply Hn|apply Hd]; by_compute.
Defined.


(** Capacity 4 with 'A', 'B', 'C' queued: four transmit interrupts send
    the three bytes and switch the interrupt off. *)
Lemma tx_drain_then_idle_witness :
  let s1 := tx_drain (cfg := cfg4) 4 s_txfull4 in
  UDR (hw s1) = [65; 66; 67] ∧ Z.testbit (UCSRB (hw s1)) 5 = false ∧
  ISR_UART_TRANSMIT_INTERRUPT (cfg := cfg4) s1 = s1.
Proof.
  destruct (tx_drain_then_idle (cfg := cfg4) s_txfull4) as (Hu & _ & _ & Hb & Hfix).
  - exact cfg4_tx_size_ok.
  - unfold tx_ok. by_compute.
  - unfold udrie_ok. by_compute.
  - split_and!; [exact Hu|exact Hb|exact Hfix].
Defined.

(** "Hi" at capacity 4. *)
Lemma string_transmitted_in_order_witness :
  ∃ s1, UART_StringPutNonBlocking (cfg := cfg4) [72; 105; 0] [] s_init4
        = Returns ([], s1) ∧
        UDR (hw (tx_drain (cfg := cfg4) 2 s1)) = [72; 105].
Proof.
  destruct (string_transmitted_in_order (cfg := cfg4) [72; 105] [] [] s_init4)
    as (s1 & Hp & _ & _ & Hu).
  - exact cfg4_tx_size_ok.
  - unfold tx_ok. by_compute.
  - each lia.
  - by_compute.
  - exists s1. split; [exact Hp|]. apply Hu. reflexivity.
Defined.

(** Four characters do not fit three slots: the call is still waiting
    after a received byte. *)
Lemma string_too_long_blocks_witness :
  UART_StringPutNonBlocking (cfg := cfg4) [72; 105; 33; 34; 0] [RXC 0 1] s_init4 = Spins.
Proof.
  apply (string_too_long_blocks (cfg := cfg4) [72; 105; 33; 34] [] [RXC 0 1] s_init4).
  - exact cfg4_tx_size_ok.
  - unfold tx_ok. by_compute.
  - each lia.
  - each discriminate.
  - by_compute.
Defined.

(** Five bytes into capacity 4: 'A', 'B', 'C' are queued, 'D' and 'E' are
    dropped and the overflow code is recorded. *)
Lemma rx_burst_witness :
  let s' := rx_all (cfg := cfg4) (arrive [65; 66; 67; 68; 69]) s_init4 in
  rx_live (cfg := cfg4) s' = [65; 66; 67] ∧ UART_LastRxError s' = 2.
Proof.
  destruct (rx_burst (cfg := cfg4) (arrive [65; 66; 67; 68; 69]) s_init4)
    as (Hl & _ & Hover).
  - exact cfg4_rx_size_ok.
  - unfold rx_ok. by_compute.
  - destruct Hover as (_ & _ & He); [by_compute|].
    split; [exact Hl|exact He].
Defined.


(** 'A' received with the framing-error flag (bit 4 of the status
    register of the ATmega16) and read at once: the result is 0x1041, bit
    12 set, and neither [UART_FRAME_ERROR] (bit 11) nor
    [UART_OVERRUN_ERROR] (bit 10) is. *)
Lemma receive_then_get_witness :
  let r := (UART_CharGetNonBlocking (cfg := cfg32)
              (ISR_UART_RECEIVE_INTERRUPT (cfg := cfg32) 16 65 s_init32)).1 in
  r mod 256 = 65 ∧ r / 256 = 16 ∧
  Z.testbit r 12 = true ∧ Z.testbit r 11 = false ∧ Z.testbit r 10 = false.
Proof.
  destruct (receive_then_get (cfg := cfg32) 16 65 s_init32) as (Hlo & Hhi & Hbits & _).
  - exact cfg32_rx_size_ok.
  - unfold rx_ok. by_compute.
  - unfold byte. lia.
  - unfold byte. lia.
  - reflexivity.
  - split_and!; [exact Hlo|exact Hhi|..].
    + apply (Hbits 4). lia.
    + apply (Hbits 3). lia.
    + apply (Hbits 2). lia.
Defined.

(** 'A' arrives with a framing error, then 'B' without: both gets report
    no error. *)
Lemma error_is_last_observed_witness :
  Forall (λ r, r / 256 = 0)
    (get_n (cfg := cfg32) 2 (rx_all (cfg := cfg32) [(16, 65); (0, 66)] s_init32)).1.
Proof.
  destruct (error_is_last_observed (cfg := cfg32) [(16, 65)] 0 66 2 s_init32)
    as (_ & Hall & _).
  - exact cfg32_rx_size_ok.
  - unfold rx_ok. by_compute.
  - unfold byte. by_compute.
  - unfold byte. lia.
  - each ltac:(unfold byte; simpl; lia).
  - by_compute.
  - by_compute.
  - exact Hall.
Defined.

(** Four gets on two buffered bytes. *)
Lemma get_n_past_end_witness :
  (get_n (cfg := cfg32) 4 s_two32).1 = [65; 66; UART_NO_DATA; UART_NO_DATA].
Proof.
  destruct (get_n_past_end (cfg := cfg32) 4 s_two32) as (Ho & _).
  - exact cfg32_rx_size_ok.
  - unfold rx_ok. by_compute.
  - by_compute.
  - exact Ho.
Defined.

(** One byte buffered behind the wrap: the count reported is 0. *)
Lemma UART_CharsAvail_bounds_witness :
  0 ≤ UART_CharsAvail (cfg := cfg32) s_wrap32 ≤ 1.
Proof.
  destruct (UART_CharsAvail_bounds (cfg := cfg32) s_wrap32) as (Hb & _).
  - exact cfg32_rx_size_ok.
  - unfold idx_ok. by_compute.
  - exact Hb.
Defined.

(** A put and a receive interrupt, in either order, at capacity 4. *)
Lemma rx_tx_independent_witness :
  UART_CharPutNonBlocking (cfg := cfg4) 65 []
    (ISR_UART_RECEIVE_INTERRUPT (cfg := cfg4) 0 66 s_init4)
  = Returns ([], ISR_UART_RECEIVE_INTERRUPT (cfg := cfg4) 0 66
                   (after s_init4 (UART_CharPutNonBlocking (cfg := cfg4) 65 [] s_init4))).
Proof.
  destruct (rx_tx_independent (cfg := cfg4) 0 66 s_init4) as (_ & _ & Hput).
  destruct (Hput 65 (after s_init4 (UART_CharPutNonBlocking (cfg := cfg4) 65 [] s_init4)))
    as (Hrx & _).
  - reflexivity.
  - exact Hrx.
Defined.

(** Two bytes buffered, a third arrives around a get. *)
Lemma rx_isr_get_commute_witness :
  (UART_CharGetNonBlocking (cfg := cfg32)
     (ISR_UART_RECEIVE_INTERRUPT (cfg := cfg32) 0 67 s_two32)).2
  = ISR_UART_RECEIVE_INTERRUPT (cfg := cfg32) 0 67
      (UART_CharGetNonBlocking (cfg := cfg32) s_two32).2.
Proof.
  destruct (rx_isr_get_commute (cfg := cfg32) 0 67 s_two32) as (Hs & _).
  - exact cfg32_rx_size_ok.
  - unfold rx_ok. by_compute.
  - unfold rx_full, ring_full. by_compute.
  - by_compute.
  - exact Hs.
Defined.

(** Capacity 4: 'A', 'B' arrive, one is read, 'C', 'D', 'E' arrive ('E'
    is dropped), the buffer is flushed, a read finds nothing. *)
Lemma rx_conservation_witness :
  let evs := [Arrive 0 65; Arrive 0 66; Read; Arrive 0 67; Arrive 0 68;
              Arrive 0 69; Flush; Read] in
  let log := (rx_history (cfg := cfg4) evs s_init4 no_log).1 in
  accepted log = [65; 66; 67; 68] ∧ dropped log = [69] ∧
  departed log = [Delivered 65; Discarded 66; Discarded 67; Discarded 68] ∧
  (length (arrivals_of evs) + 0 = length (dropped log) + length (departed log) + 0)%nat.
Proof.
  destruct (rx_conservation (cfg := cfg4)
              [Arrive 0 65; Arrive 0 66; Read; Arrive 0 67; Arrive 0 68;
               Arrive 0 69; Flush; Read] s_init4) as (_ & _ & Hcount & _).
  - exact cfg4_rx_size_ok.
  - unfold rx_ok. by_compute.
  - unfold byte. by_compute.
  - each ltac:(simpl; lia).
  - split_and!; [reflexivity..|exact Hcount].
Defined.
